(** * pcap: a streaming reader and writer for the classic pcap container

    A shallow embedding of [io.go] (package [pcap]) and a verification of
    the properties its specification states about it.

    Conventions.
    - Go's fixed-width integers are values of [Z]; every conversion that
      can wrap ([uint32(x)], [int32(x)], [byte(x)], [Count++]) is written
      out with its modulus.
    - A byte slice is a [list byte]; a sub-slice that aliases its parent
      ([w.buf[4:]]) is an update of the parent at that offset.
    - Pointers to mutable structs ([*Reader], [*Writer]) become explicit
      state passing; the methods of [Reader] run in a small state monad.
    - The collaborators [io.Reader] and [io.Writer] are interfaces: they
      are modelled by scripted streams and sinks that can deliver partial
      reads, errors, end of stream and failed writes. *)

From Stdlib Require Import String.
From Stdlib Require Import ZArith List Lia Bool.
From Stdlib Require Import Strings.Byte.
Import ListNotations.
Local Open Scope Z_scope.

(* ================================================================== *)
(** * Machine integers and bytes *)

Definition byte := Byte.byte.

(** [uint32(b)] for a byte [b]: the value of the byte, in [0, 255]. *)
Definition byte_val (b : byte) : Z := Z.of_N (Byte.to_N b).

(** [byte(v)]: Go's truncating conversion of an unsigned integer. *)
Definition to_byte (v : Z) : byte :=
  match Byte.of_N (Z.to_N (v mod 256)) with
  | Some b => b
  | None => x00
  end.

(** [uint16(x)], [uint32(x)]: conversion to an unsigned type wraps. *)
Definition uint16 (x : Z) : Z := x mod 2 ^ 16.
Definition uint32 (x : Z) : Z := x mod 2 ^ 32.

(** [int32(x)], [int64(x)], [int(x)]: conversion to a signed type wraps
    in two's complement ([int] is 64 bits wide). *)
Definition int32 (x : Z) : Z := (x + 2 ^ 31) mod 2 ^ 32 - 2 ^ 31.
Definition int64 (x : Z) : Z := (x + 2 ^ 63) mod 2 ^ 64 - 2 ^ 63.

Definition is_uint16 (x : Z) : Prop := 0 <= x < 2 ^ 16.
Definition is_uint32 (x : Z) : Prop := 0 <= x < 2 ^ 32.
Definition is_int32 (x : Z) : Prop := - 2 ^ 31 <= x < 2 ^ 31.

(** [make([]byte, n)]: a zero-filled buffer. *)
Definition make (n : nat) : list byte := repeat x00 n.

(** [b[lo:hi]] *)
Definition slice (b : list byte) (lo hi : nat) : list byte :=
  firstn (hi - lo) (skipn lo b).

(** The effect on [b] of a callee that rewrites the aliasing sub-slice
    [b[off:]] by [f]. *)
Definition on_suffix (off : nat) (f : list byte -> list byte)
    (b : list byte) : list byte :=
  firstn off b ++ f (skipn off b).

(** [copy(data[n:], chunk)]: what a [Read] into [data[n:]] that delivers
    [chunk] leaves in [data]. *)
Definition copy_at (data : list byte) (n : nat) (chunk : list byte)
  : list byte :=
  firstn n data ++ chunk ++ skipn (n + length chunk) data.

(* ================================================================== *)
(** * Package [encoding/binary] *)

Module binary.

(** Reading from a slice shorter than the field panics in Go; every
    caller in this package passes a slice of exactly the field's width,
    so the default byte of [nth] is never observed. *)
Definition at_ (b : list byte) (i : nat) : Z := byte_val (nth i b x00).

Definition LittleEndian_Uint16 (b : list byte) : Z :=
  Z.lor (at_ b 0) (Z.shiftl (at_ b 1) 8).

Definition BigEndian_Uint16 (b : list byte) : Z :=
  Z.lor (at_ b 1) (Z.shiftl (at_ b 0) 8).

Definition LittleEndian_Uint32 (b : list byte) : Z :=
  Z.lor (Z.lor (Z.lor (at_ b 0) (Z.shiftl (at_ b 1) 8))
               (Z.shiftl (at_ b 2) 16))
        (Z.shiftl (at_ b 3) 24).

Definition BigEndian_Uint32 (b : list byte) : Z :=
  Z.lor (Z.lor (Z.lor (at_ b 3) (Z.shiftl (at_ b 2) 8))
               (Z.shiftl (at_ b 1) 16))
        (Z.shiftl (at_ b 0) 24).

(** [PutUint16(b, v)] and [PutUint32(b, v)] overwrite the first two,
    four bytes of [b] (and panic on a shorter slice: the buffer is
    then returned as it is). *)
Definition LittleEndian_PutUint16 (v : Z) (b : list byte) : list byte :=
  match b with
  | _ :: _ :: rest => to_byte v :: to_byte (Z.shiftr v 8) :: rest
  | _ => b
  end.

Definition LittleEndian_PutUint32 (v : Z) (b : list byte) : list byte :=
  match b with
  | _ :: _ :: _ :: _ :: rest =>
      to_byte v :: to_byte (Z.shiftr v 8) :: to_byte (Z.shiftr v 16)
        :: to_byte (Z.shiftr v 24) :: rest
  | _ => b
  end.

End binary.

(* ================================================================== *)
(** * Package [time] *)

Module time.

(** A [time.Time], as the instant it denotes: whole seconds since the
    Unix epoch (an [int64]) and the nanoseconds within that second, in
    [0, 999999999]. *)
Record Time : Type := mkTime { sec : Z; nsec : Z }.

(** [time.Unix(sec, nsec)]; it is valid to pass [nsec] outside
    [0, 999999999]. Go's [/] truncates: [Z.quot]. *)
Definition Unix (sec nsec : Z) : Time :=
  if (nsec <? 0) || (1000000000 <=? nsec) then
    let n := Z.quot nsec 1000000000 in
    let sec := int64 (sec + n) in
    let nsec := int64 (nsec - n * 1000000000) in
    if nsec <? 0 then mkTime (int64 (sec - 1)) (int64 (nsec + 1000000000))
    else mkTime sec nsec
  else mkTime sec nsec.

(** [t.Unix()] and [t.Nanosecond()] *)
Definition Time_Unix (t : Time) : Z := sec t.
Definition Time_Nanosecond (t : Time) : Z := nsec t.

(** Nanoseconds since the epoch, as a mathematical integer. *)
Definition nanos (t : Time) : Z := sec t * 1000000000 + nsec t.

Definition wf (t : Time) : Prop :=
  - 2 ^ 63 <= sec t < 2 ^ 63 /\ 0 <= nsec t < 1000000000.

End time.

(* ================================================================== *)
(** * Package [io]: errors, readable streams and writable sinks *)

Inductive error : Type :=
| io_EOF                          (* io.EOF *)
| bad_magic (magic : Z)           (* fmt.Errorf("pcap: bad magic number: %0x", magic) *)
| io_error (msg : string).        (* any other error of the collaborator *)

Definition is_nil (e : option error) : bool :=
  match e with None => true | Some _ => false end.

(** An [io.Reader] is given by the script of what it will deliver: each
    event is a chunk of bytes that become available together and the
    error, if any, that the stream reports with the last byte of the
    chunk. An event with no bytes and an error is a failed read; one with
    no bytes and no error is a read that returns [0, nil]. After the
    script the stream is at its end and every read returns [0, io.EOF].
    A [bytes.Reader] over [bs] is the script [[(bs, None)]]. *)
Definition stream : Type := list (list byte * option error).

(** [Read(p)] with [len(p) = k]: the bytes delivered, the error, and the
    stream afterwards. At most [k] bytes are delivered; a chunk larger
    than [k] is delivered in parts. *)
Definition Read (s : stream) (k : nat) : list byte * option error * stream :=
  match s with
  | [] => ([], Some io_EOF, [])
  | (bs, e) :: rest =>
      if (k <? length bs)%nat
      then (firstn k bs, None, (skipn k bs, e) :: rest)
      else (bs, e, rest)
  end.

(** All the bytes a stream holds, in order. *)
Definition stream_bytes (s : stream) : list byte := flat_map fst s.

(** A stream that never reports an error before its end. *)
Definition clean (s : stream) : Prop := Forall (fun ev => snd ev = None) s.

(** The stream of an in-memory byte slice ([bytes.NewReader(bs)]). *)
Definition of_bytes (bs : list byte) : stream := [(bs, None)].

(** An [io.Writer]: the bytes written so far and the script of the
    outcomes of the coming calls, [None] for a complete write and
    [Some (n, e)] for a write that stores at most [n] bytes and fails
    with [e]. Past its script the sink accepts every write, as a
    [bytes.Buffer] does. *)
Record sink : Type := mkSink {
  written : list byte;
  faults : list (option (nat * error))
}.

(** [Write(p)]: the count, the error, and the sink afterwards. *)
Definition Write (k : sink) (p : list byte) : nat * option error * sink :=
  match faults k with
  | Some (n, e) :: rest =>
      (Nat.min n (length p), Some e, mkSink (written k ++ firstn n p) rest)
  | None :: rest => (length p, None, mkSink (written k ++ p) rest)
  | [] => (length p, None, mkSink (written k ++ p) [])
  end.

(** [new(bytes.Buffer)] *)
Definition new_Buffer : sink := mkSink [] [].

(* ================================================================== *)
(** * Package [pcap]: the data model *)

(** [FileHeader] is the parsed header of a pcap file. *)
Record FileHeader : Type := mkFileHeader {
  MagicNumber : Z;    (* uint32 *)
  VersionMajor : Z;   (* uint16 *)
  VersionMinor : Z;   (* uint16 *)
  TimeZone : Z;       (* int32 *)
  SigFigs : Z;        (* uint32 *)
  SnapLen : Z;        (* uint32 *)
  LinkType : Z        (* uint32 *)
}.

(** The fields of a header hold values of their Go types. *)
Definition FileHeader_wf (h : FileHeader) : Prop :=
  is_uint32 (MagicNumber h) /\ is_uint16 (VersionMajor h) /\
  is_uint16 (VersionMinor h) /\ is_int32 (TimeZone h) /\
  is_uint32 (SigFigs h) /\ is_uint32 (SnapLen h) /\ is_uint32 (LinkType h).

Record PacketData : Type := mkPacketData { Data : list byte }.

(** [NewPacketData(size)] *)
Definition NewPacketData (size : Z) : PacketData :=
  mkPacketData (make (Z.to_nat size)).

(** Modelled from the spec: the struct [Packet], which [io.go] builds in
    [Reader.Next] and reads in [Writer.Write] but does not declare. Its
    fields are the ones those two functions use: the timestamp, the
    captured and the original length, the payload, and the pooled buffer
    the payload lives in. The sixth field, [Pool], points to the
    [DataPool] of the Reader that made the packet; there is one pool per
    Reader, so the reference is the Reader itself. *)
Record Packet : Type := mkPacket {
  Time : time.Time;
  Caplen : Z;                (* uint32 *)
  Len : Z;                   (* uint32 *)
  pkt_Data : list byte;      (* Data *)
  pkt_PacketData : PacketData
}.

(** [Reader] parses pcap files. [DataPool] is the free list of the
    [sync.Pool]: the buffers that were put back and not taken out again.
    ([sync.Pool] may also drop idle buffers when the garbage collector
    runs; the free list is the pool between two collections.) *)
Record Reader : Type := mkReader {
  flip : bool;
  buf : stream;
  err : option error;
  fourBytes : list byte;
  twoBytes : list byte;
  sixteenBytes : list byte;
  DataPool : list PacketData;
  Header : FileHeader;
  Count : Z                  (* int *)
}.

Definition set_flip (v : bool) (r : Reader) : Reader :=
  mkReader v (buf r) (err r) (fourBytes r) (twoBytes r) (sixteenBytes r)
           (DataPool r) (Header r) (Count r).
Definition set_buf (v : stream) (r : Reader) : Reader :=
  mkReader (flip r) v (err r) (fourBytes r) (twoBytes r) (sixteenBytes r)
           (DataPool r) (Header r) (Count r).
Definition set_err (v : option error) (r : Reader) : Reader :=
  mkReader (flip r) (buf r) v (fourBytes r) (twoBytes r) (sixteenBytes r)
           (DataPool r) (Header r) (Count r).
Definition set_fourBytes (v : list byte) (r : Reader) : Reader :=
  mkReader (flip r) (buf r) (err r) v (twoBytes r) (sixteenBytes r)
           (DataPool r) (Header r) (Count r).
Definition set_twoBytes (v : list byte) (r : Reader) : Reader :=
  mkReader (flip r) (buf r) (err r) (fourBytes r) v (sixteenBytes r)
           (DataPool r) (Header r) (Count r).
Definition set_sixteenBytes (v : list byte) (r : Reader) : Reader :=
  mkReader (flip r) (buf r) (err r) (fourBytes r) (twoBytes r) v
           (DataPool r) (Header r) (Count r).
Definition set_DataPool (v : list PacketData) (r : Reader) : Reader :=
  mkReader (flip r) (buf r) (err r) (fourBytes r) (twoBytes r)
           (sixteenBytes r) v (Header r) (Count r).
Definition set_Header (v : FileHeader) (r : Reader) : Reader :=
  mkReader (flip r) (buf r) (err r) (fourBytes r) (twoBytes r)
           (sixteenBytes r) (DataPool r) v (Count r).
Definition set_Count (v : Z) (r : Reader) : Reader :=
  mkReader (flip r) (buf r) (err r) (fourBytes r) (twoBytes r)
           (sixteenBytes r) (DataPool r) (Header r) v.

(** [Writer] writes a pcap file. *)
Record Writer : Type := mkWriter {
  writer : sink;
  w_buf : list byte          (* buf *)
}.

(* ================================================================== *)
(** * Byte-order helpers *)

Definition asUint32 (data : list byte) (flip : bool) : Z :=
  if flip then binary.BigEndian_Uint32 data
  else binary.LittleEndian_Uint32 data.

Definition asUint16 (data : list byte) (flip : bool) : Z :=
  if flip then binary.BigEndian_Uint16 data
  else binary.LittleEndian_Uint16 data.

(* ================================================================== *)
(** * The Reader *)

(** Methods on [*Reader]: a computation that returns a value and the
    Reader as the method leaves it. *)
Definition M (A : Type) : Type := Reader -> A * Reader.

Definition ret {A : Type} (a : A) : M A := fun r => (a, r).

Definition bind {A B : Type} (m : M A) (f : A -> M B) : M B :=
  fun r => let (a, r') := m r in f a r'.

Definition get {A : Type} (field : Reader -> A) : M A :=
  fun r => (field r, r).

Definition modify (f : Reader -> Reader) : M unit := fun r => (tt, f r).

Declare Scope reader_scope.
Delimit Scope reader_scope with reader.
Notation "x <- m ;; k" := (bind m (fun x => k))
  (at level 61, m at next level, right associativity) : reader_scope.
Notation "m ;;; k" := (bind m (fun _ => k))
  (at level 61, right associativity) : reader_scope.
Local Open Scope reader_scope.

(** The loop of [Reader.read],
    [for err == nil && n != len(data) { chunk, err = Read(data[n:]); n += chunk }],
    on the stream [s]. Every turn of the loop takes an event off the
    script or is the last one, so [fuel] bounds the turns; [None] is a
    loop that was cut short. *)
Fixpoint read_loop (fuel : nat) (s : stream) (data : list byte) (n : nat)
    (e : option error) : option (stream * list byte * nat * option error) :=
  if is_nil e && negb (n =? length data)%nat then
    match fuel with
    | O => None
    | S fuel' =>
        let '(chunk, e', s') := Read s (length data - n) in
        read_loop fuel' s' (copy_at data n chunk) (n + length chunk)%nat e'
    end
  else Some (s, data, n, e).

(** [r.read(data)]: fills [data] from the stream, retrying partial reads.
    Returns what [data] holds afterwards and the error. The loop runs
    with one turn per event of the script and one more, which is enough
    for it to finish ([read_loop_spec]); the last branch is never
    taken. *)
Definition read (data : list byte) : M (list byte * option error) :=
  fun r =>
    let '(chunk, e, s) := Read (buf r) (length data) in
    match read_loop (S (length s)) s (copy_at data 0 chunk) (length chunk) e with
    | Some (s', data', n, e') =>
        ((data', if (length data =? n)%nat then None else e'), set_buf s' r)
    | None => ((data, e), set_buf s r)
    end.

Definition readUint32 : M Z :=
  data <- get fourBytes ;;
  res <- read data ;;
  modify (set_fourBytes (fst res)) ;;;
  modify (set_err (snd res)) ;;;
  if is_nil (snd res) then
    flip <- get flip ;; ret (asUint32 (fst res) flip)
  else ret 0.

Definition readInt32 : M Z :=
  data <- get fourBytes ;;
  res <- read data ;;
  modify (set_fourBytes (fst res)) ;;;
  modify (set_err (snd res)) ;;;
  if is_nil (snd res) then
    flip <- get flip ;; ret (int32 (asUint32 (fst res) flip))
  else ret 0.

Definition readUint16 : M Z :=
  data <- get twoBytes ;;
  res <- read data ;;
  modify (set_twoBytes (fst res)) ;;;
  modify (set_err (snd res)) ;;;
  if is_nil (snd res) then
    flip <- get flip ;; ret (asUint16 (fst res) flip)
  else ret 0.

(** The pool's [New]: counts the allocation and makes a buffer of
    [SnapLen] bytes. *)
Definition DataPool_New : M PacketData :=
  modify (fun r => set_Count (int64 (Count r + 1)) r) ;;;
  h <- get Header ;;
  ret (NewPacketData (SnapLen h)).

(** [r.DataPool.Get()]: a buffer of the free list, or a new one. *)
Definition DataPool_Get : M PacketData :=
  pool <- get DataPool ;;
  match pool with
  | pd :: rest => modify (set_DataPool rest) ;;; ret pd
  | [] => DataPool_New
  end.

(** Modelled from the spec: the release of a buffer back to the pool.
    [io.go] has no function for it; a caller releases the buffer of a
    packet with [pkt.Pool.Put(pkt.PacketData)], which is [sync.Pool.Put]
    on the [DataPool] of the Reader that made the packet. *)
Definition DataPool_Put (pd : PacketData) : M unit :=
  modify (fun r => set_DataPool (pd :: DataPool r) r).

(** [NewReader] reads pcap data from an [io.Reader]. The result [err] is
    declared by the signature and never assigned. *)
Definition NewReader (reader : stream) : option Reader * option error :=
  let err : option error := None in
  let r := mkReader false reader None (make 4) (make 2) (make 16) []
                    (mkFileHeader 0 0 0 0 0 0 0) 0 in
  let (magic, r) := readUint32 r in
  let construct (r : Reader) : option Reader * option error :=
    let m : M unit :=
      versionMajor <- readUint16 ;;
      versionMinor <- readUint16 ;;
      timeZone <- readInt32 ;;
      sigFigs <- readUint32 ;;
      snapLen <- readUint32 ;;
      linkType <- readUint32 ;;
      modify (set_Header (mkFileHeader 0xa1b23c4d versionMajor versionMinor
                                       timeZone sigFigs snapLen linkType)) ;;;
      modify (set_DataPool []) in
    (Some (snd (m r)), err) in
  if (magic =? 0xa1b2c3d4) || (magic =? 0xa1b23c4d) then
    construct (set_flip false r)
  else if (magic =? 0xd4c3b2a1) || (magic =? 0x4d3cb2a1) then
    construct (set_flip true r)
  else (None, Some (bad_magic magic)).

(** [Next] returns the next packet or nil if no more packets can be
    read. *)
Definition Next : M (option Packet) :=
  d <- get sixteenBytes ;;
  res <- read d ;;
  modify (set_sixteenBytes (fst res)) ;;;
  modify (set_err (snd res)) ;;;
  if is_nil (snd res) then
    let d := fst res in
    flip <- get flip ;;
    let timeSec := asUint32 (slice d 0 4) flip in
    let timeUsec := asUint32 (slice d 4 8) flip in
    let capLen := asUint32 (slice d 8 12) flip in
    let origLen := asUint32 (slice d 12 16) flip in
    packetData <- DataPool_Get ;;
    res <- read (Data packetData) ;;
    let packetData := mkPacketData (fst res) in
    modify (set_err (snd res)) ;;;
    if is_nil (snd res) then
      ret (Some (mkPacket (time.Unix timeSec timeUsec) capLen origLen
                          (Data packetData) packetData))
    else ret None
  else ret None.

(* ================================================================== *)
(** * The Writer *)

(** [NewWriter] creates a Writer that stores output in an [io.Writer].
    The FileHeader is written immediately. The third component is the
    sink as the call leaves it, which the caller still holds when no
    Writer is returned. *)
Definition NewWriter (writer : sink) (header : FileHeader)
  : option Writer * option error * sink :=
  let buf := make 24 in
  let buf := binary.LittleEndian_PutUint32 (MagicNumber header) buf in
  let buf := on_suffix 4 (binary.LittleEndian_PutUint16 (VersionMajor header)) buf in
  let buf := on_suffix 6 (binary.LittleEndian_PutUint16 (VersionMinor header)) buf in
  let buf := on_suffix 8 (binary.LittleEndian_PutUint32 (uint32 (TimeZone header))) buf in
  let buf := on_suffix 12 (binary.LittleEndian_PutUint32 (SigFigs header)) buf in
  let buf := on_suffix 16 (binary.LittleEndian_PutUint32 (SnapLen header)) buf in
  let buf := on_suffix 20 (binary.LittleEndian_PutUint32 (LinkType header)) buf in
  let '(_, e, k) := Write writer buf in
  match e with
  | Some e => (None, Some e, k)
  | None => (Some (mkWriter k buf), None, k)
  end.

(** [Writer.Write] writes a packet to the underlying writer. *)
Definition Writer_Write (w : Writer) (pkt : Packet) : option error * Writer :=
  let buf := w_buf w in
  let buf := binary.LittleEndian_PutUint32 (uint32 (time.Time_Unix (Time pkt))) buf in
  let buf := on_suffix 4 (binary.LittleEndian_PutUint32
                            (uint32 (time.Time_Nanosecond (Time pkt)))) buf in
  let buf := on_suffix 8 (binary.LittleEndian_PutUint32 (Caplen pkt)) buf in
  let buf := on_suffix 12 (binary.LittleEndian_PutUint32 (Len pkt)) buf in
  let '(_, e, k) := Write (writer w) (slice buf 0 16) in
  match e with
  | Some e => (Some e, mkWriter k buf)
  | None =>
      let '(_, e, k) := Write k (pkt_Data pkt) in
      (e, mkWriter k buf)
  end.

(* ================================================================== *)
(** * Vocabulary of the specification *)

(** The little-endian layout of a 16-bit and of a 32-bit field. *)
Definition le16 (v : Z) : list byte := [to_byte v; to_byte (Z.shiftr v 8)].

Definition le32 (v : Z) : list byte :=
  [to_byte v; to_byte (Z.shiftr v 8); to_byte (Z.shiftr v 16);
   to_byte (Z.shiftr v 24)].

(** The 24-byte file header:
    magic(4) | version_major(2) | version_minor(2) | tz_offset(4) |
    sig_figs(4) | snaplen(4) | linktype(4). *)
Definition header_bytes (h : FileHeader) : list byte :=
  le32 (MagicNumber h) ++ le16 (VersionMajor h) ++ le16 (VersionMinor h)
    ++ le32 (uint32 (TimeZone h)) ++ le32 (SigFigs h) ++ le32 (SnapLen h)
    ++ le32 (LinkType h).

(** The 16-byte record header:
    ts_seconds(4) | ts_fraction(4) | captured_length(4) | original_length(4). *)
Definition record_header (p : Packet) : list byte :=
  le32 (uint32 (time.Time_Unix (Time p)))
    ++ le32 (uint32 (time.Time_Nanosecond (Time p)))
    ++ le32 (Caplen p) ++ le32 (Len p).

(** A record on the wire, as the Writer lays it out. *)
Definition record_bytes (p : Packet) : list byte :=
  record_header p ++ pkt_Data p.

(** The four accepted magic values. *)
Definition native_magic (m : Z) : Prop := m = 0xa1b2c3d4 \/ m = 0xa1b23c4d.
Definition swapped_magic (m : Z) : Prop := m = 0xd4c3b2a1 \/ m = 0x4d3cb2a1.
Definition accepted_magic (m : Z) : Prop := native_magic m \/ swapped_magic m.

(** The value the first four bytes of a stream decode to, when the
    stream supplies them: what [NewReader] switches on. *)
Definition stream_magic (s : stream) : option Z :=
  let r := mkReader false s None (make 4) (make 2) (make 16) []
                    (mkFileHeader 0 0 0 0 0 0 0) 0 in
  let '(data, e, _) := read (make 4) r in
  if is_nil e then Some (binary.LittleEndian_Uint32 data) else None.

(** The buffers of a Reader have the sizes [NewReader] gave them, and
    every buffer of the pool is one the pool's factory made. *)
Definition Reader_wf (r : Reader) : Prop :=
  length (fourBytes r) = 4%nat /\ length (twoBytes r) = 2%nat /\
  length (sixteenBytes r) = 16%nat /\
  Forall (fun pd => length (Data pd) = Z.to_nat (SnapLen (Header r)))
         (DataPool r).

(** What a record compares by: timestamp, captured length, original
    length, payload. *)
Definition record_tuple (p : Packet) : time.Time * Z * Z * list byte :=
  (Time p, Caplen p, Len p, pkt_Data p).

(** A packet a caller hands to the Writer for a file of header [h]: the
    lengths are [uint32]s, the timestamp is a [time.Time], and the
    payload buffer has [SnapLen] bytes. *)
Definition Packet_for (h : FileHeader) (p : Packet) : Prop :=
  is_uint32 (Caplen p) /\ is_uint32 (Len p) /\ time.wf (Time p) /\
  length (pkt_Data p) = Z.to_nat (SnapLen h).

(** The timestamp fits the 32-bit seconds field of a record header. *)
Definition fits_seconds (p : Packet) : Prop := is_uint32 (time.sec (Time p)).

(** A caller that writes the packets one after the other and stops at
    the first error. *)
Fixpoint Write_all (w : Writer) (pkts : list Packet) : option error * Writer :=
  match pkts with
  | [] => (None, w)
  | p :: rest =>
      match Writer_Write w p with
      | (Some e, w') => (Some e, w')
      | (None, w') => Write_all w' rest
      end
  end.

(** A caller that writes a whole file to a fresh in-memory buffer and
    returns the bytes, if no write failed. *)
Definition write_file (h : FileHeader) (pkts : list Packet)
  : option (list byte) :=
  match NewWriter new_Buffer h with
  | (Some w, _, _) =>
      match Write_all w pkts with
      | (None, w') => Some (written (writer w'))
      | (Some _, _) => None
      end
  | (None, _, _) => None
  end.

(** A caller that calls [Next] [n] times and keeps the results. *)
Fixpoint Next_n (n : nat) : M (list (option Packet)) :=
  match n with
  | O => ret []
  | S n' => p <- Next ;; ps <- Next_n n' ;; ret (p :: ps)
  end.

(** The header a Reader stores for a file whose header is [h]. *)
Definition stored_header (h : FileHeader) : FileHeader :=
  mkFileHeader 0xa1b23c4d (VersionMajor h) (VersionMinor h) (TimeZone h)
               (SigFigs h) (SnapLen h) (LinkType h).

(* ================================================================== *)
(** * A small capture file, for the examples *)

(** A header with [SnapLen = 4] and the magic value [magic]. *)
Definition example_header (magic : Z) : FileHeader :=
  mkFileHeader magic 2 4 0 0 4 1.

(** A packet of 1 s and 500000 fraction units, captured in full. *)
Definition example_packet : Packet :=
  mkPacket (time.mkTime 1 500000) 4 4 [x01; x02; x03; x04]
           (mkPacketData [x01; x02; x03; x04]).

(** The bytes of a file with header [h] and the records [pkts], as a
    Writer lays them out. *)
Definition file_bytes (h : FileHeader) (pkts : list Packet) : list byte :=
  header_bytes h ++ flat_map record_bytes pkts.

(** The file header of a capture stored in the other byte order: the
    magic value and every field big-endian. *)
Definition swapped_header_bytes : list byte :=
  [xa1; xb2; xc3; xd4; x00; x02; x00; x04; x00; x00; x00; x00;
   x00; x00; x00; x00; x00; x00; x00; x04; x00; x00; x00; x01].

(** A stream that holds a header, fails once with a timeout, and then
    delivers a record: a connection whose read deadline passed before
    the record arrived. *)
Definition stalled_stream : stream :=
  [(header_bytes (example_header 0xa1b23c4d), None);
   ([], Some (io_error "i/o timeout"%string));
   (record_bytes example_packet, None)].

(** The Reader of an example file that holds one record. *)
Definition example_Reader : Reader :=
  match NewReader (of_bytes (file_bytes (example_header 0xa1b23c4d)
                                        [example_packet])) with
  | (Some r, _) => r
  | (None, _) =>
      mkReader false [] None [] [] [] [] (mkFileHeader 0 0 0 0 0 0 0) 0
  end.

(** The Writer of an example file, after the header. *)
Definition example_Writer : Writer :=
  match NewWriter new_Buffer (example_header 0xa1b23c4d) with
  | (Some w, _, _) => w
  | (None, _, _) => mkWriter new_Buffer []
  end.

(** A Reader whose stream is at its end. *)
Definition exhausted (r : Reader) : Prop :=
  buf r = [] /\ length (sixteenBytes r) = 16%nat.

(** The Reader of an example file that is cut off ten bytes into its
    first record header. *)
Definition truncated_Reader : Reader :=
  match NewReader (of_bytes (firstn 34 (file_bytes (example_header 0xa1b23c4d)
                                                    [example_packet]))) with
  | (Some r, _) => r
  | (None, _) =>
      mkReader false [] None [] [] [] [] (mkFileHeader 0 0 0 0 0 0 0) 0
  end.

(** A field reader changes the stream, the stored error and its own
    scratch buffer, and nothing else. *)
Inductive field_step (r : Reader) : Reader -> Prop :=
| field_step_intro s e fb tb :
    field_step r (mkReader (flip r) s e fb tb (sixteenBytes r) (DataPool r)
                           (Header r) (Count r)).

(* ================================================================== *)
(** * Vocabulary for the further properties *)

(** The big-endian layout of a 16-bit and of a 32-bit field: what a
    machine of the other byte order stores. *)
Definition be16 (v : Z) : list byte := [to_byte (Z.shiftr v 8); to_byte v].

Definition be32 (v : Z) : list byte :=
  [to_byte (Z.shiftr v 24); to_byte (Z.shiftr v 16); to_byte (Z.shiftr v 8);
   to_byte v].

(** The file header of a capture stored big-endian. *)
Definition header_bytes_be (h : FileHeader) : list byte :=
  be32 (MagicNumber h) ++ be16 (VersionMajor h) ++ be16 (VersionMinor h)
    ++ be32 (uint32 (TimeZone h)) ++ be32 (SigFigs h) ++ be32 (SnapLen h)
    ++ be32 (LinkType h).

(** The layout of a field in the byte order [flip] selects. *)
Definition field32 (flip : bool) (v : Z) : list byte :=
  if flip then be32 v else le32 v.

Definition field16 (flip : bool) (v : Z) : list byte :=
  if flip then be16 v else le16 v.

(** A record in the byte order [flip] selects. *)
Definition record_layout (flip : bool) (p : Packet) : list byte :=
  (field32 flip (uint32 (time.Time_Unix (Time p)))
     ++ field32 flip (uint32 (time.Time_Nanosecond (Time p)))
     ++ field32 flip (Caplen p) ++ field32 flip (Len p))
    ++ pkt_Data p.

(** The Readers a caller can get to: the one [NewReader] returned, and
    from there by calls of [Next] and by releasing the buffer of a
    record that [Next] returned. *)
Inductive reachable (r0 : Reader) : Reader -> Prop :=
| reachable_new : reachable r0 r0
| reachable_Next r :
    reachable r0 r -> reachable r0 (snd (Next r))
| reachable_release r q :
    reachable r0 r -> fst (Next r) = Some q ->
    reachable r0 (snd (DataPool_Put (pkt_PacketData q) (snd (Next r)))).

(** A caller that takes a record and releases its buffer before the
    next call. *)
Definition Next_release : M (option Packet) :=
  p <- Next ;;
  match p with
  | Some q => DataPool_Put (pkt_PacketData q) ;;; ret p
  | None => ret p
  end.

Fixpoint Next_release_n (n : nat) : M (list (option Packet)) :=
  match n with
  | O => ret []
  | S n' => p <- Next_release ;; ps <- Next_release_n n' ;; ret (p :: ps)
  end.

(** What a packet reads back as after the Writer stored its seconds in
    32 bits. *)
Definition wrapped_tuple (p : Packet) : time.Time * Z * Z * list byte :=
  (time.mkTime (uint32 (time.sec (Time p))) (time.nsec (Time p)),
   Caplen p, Len p, pkt_Data p).

(** A packet stamped one second before the epoch. *)
Definition early_packet : Packet :=
  mkPacket (time.mkTime (-1) 7) 4 60 [x0a; x0b; x0c; x0d]
           (mkPacketData [x0a; x0b; x0c; x0d]).

(** A byte slice delivered one byte per read. *)
Definition trickle (bs : list byte) : stream :=
  map (fun b => ([b], None)) bs.

(** A sink that accepts the file header and fails two bytes into the
    next write. *)
Definition full_disk : sink :=
  mkSink [] [None; Some (2%nat, io_error "no space left on device"%string)].

(** The Writer of an example file on that sink, after the header. *)
Definition full_disk_Writer : Writer :=
  match NewWriter full_disk (example_header 0xa1b23c4d) with
  | (Some w, _, _) => w
  | (None, _, _) => mkWriter full_disk []
  end.

(** A connection that is reset after one byte. *)
Definition reset_stream : stream :=
  [([x0a], None); ([], Some (io_error "connection reset by peer"%string))].

(** The record that [Next] returns for a packet the Writer stored. *)
Definition read_back (p : Packet) : Packet :=
  mkPacket (time.mkTime (uint32 (time.sec (Time p))) (time.nsec (Time p)))
           (Caplen p) (Len p) (pkt_Data p) (mkPacketData (pkt_Data p)).

(** The example capture as a big-endian machine stores it. *)
Definition big_endian_file : list byte :=
  header_bytes_be (example_header 0xa1b2c3d4)
    ++ record_layout true example_packet.

(** The Reader of the big-endian example capture, before and after its
    record was read. *)
Definition NewReader_be_example : Reader * Reader :=
  match NewReader (of_bytes big_endian_file) with
  | (Some r, _) => (r, snd (Next r))
  | (None, _) => (example_Reader, example_Reader)
  end.

(** The Reader of an example file that holds two records. *)
Definition two_record_Reader : Reader :=
  match NewReader (of_bytes (file_bytes (example_header 0xa1b23c4d)
                                        [example_packet; early_packet])) with
  | (Some r, _) => r
  | (None, _) => example_Reader
  end.

(** A method of the Reader does not see how an error-free stream splits
    its bytes into reads: on two such streams with the same bytes it
    returns the same value and leaves the same Reader, up to streams
    that again hold the same bytes. *)
Definition chunk_blind {A : Type} (m : M A) : Prop :=
  forall (r : Reader) (s1 s2 : stream),
    clean s1 -> clean s2 -> stream_bytes s1 = stream_bytes s2 ->
    exists a r' s1' s2',
      m (set_buf s1 r) = (a, set_buf s1' r') /\
      m (set_buf s2 r) = (a, set_buf s2' r') /\
      clean s1' /\ clean s2' /\ stream_bytes s1' = stream_bytes s2'.

(** Closes the range conditions of a concrete header or packet. *)
Ltac ranges := repeat split; cbv; congruence.

(* ================================================================== *)
(** * Bytes and fixed-width fields *)

Lemma byte_val_range (b : byte) : 0 <= byte_val b < 256.
Proof.
  unfold byte_val. pose proof (Byte.to_N_bounded b). lia.
Qed.

Lemma byte_val_to_byte (v : Z) : byte_val (to_byte v) = v mod 256.
Proof.
  unfold byte_val, to_byte.
  assert (Hm : 0 <= v mod 256 < 256) by (apply Z.mod_pos_bound; lia).
  destruct (Byte.of_N (Z.to_N (v mod 256))) as [b|] eqn:E.
  - apply Byte.to_of_N in E. rewrite E. lia.
  - apply Byte.of_N_None_iff in E. lia.
Qed.

Lemma to_byte_byte_val (b : byte) : to_byte (byte_val b) = b.
Proof.
  unfold to_byte. pose proof (byte_val_range b) as Hr.
  rewrite Z.mod_small by lia. unfold byte_val.
  rewrite N2Z.id, Byte.of_to_N. reflexivity.
Qed.

(** Below [2 ^ n] a value has no bit in common with one shifted left by
    [n], so [|] adds them. *)
Lemma lor_shiftl_add (a b n : Z) :
  0 <= n -> 0 <= a < 2 ^ n -> Z.lor a (Z.shiftl b n) = a + b * 2 ^ n.
Proof.
  intros Hn Ha.
  pose proof (Z.add_lor_land a (Z.shiftl b n)) as Hsum.
  assert (Hdis : Z.land a (Z.shiftl b n) = 0).
  { apply Z.bits_inj'. intros i Hi.
    rewrite Z.land_spec, Z.bits_0.
    destruct (Z.ltb_spec i n).
    - rewrite Z.shiftl_spec_low by lia. apply andb_false_r.
    - replace (Z.testbit a i) with false; [reflexivity|].
      symmetry. destruct (Z.eq_dec a 0) as [->|Hne].
      + apply Z.bits_0.
      + apply Z.bits_above_log2; [lia|].
        apply Z.log2_lt_pow2; try lia.
        apply Z.lt_le_trans with (2 ^ n); [lia|].
        apply Z.pow_le_mono_r; lia. }
  rewrite Hdis, Z.add_0_r in Hsum. rewrite Hsum.
  rewrite Z.shiftl_mul_pow2 by lia. reflexivity.
Qed.

Lemma LittleEndian_Uint16_sum (b0 b1 : byte) (rest : list byte) :
  binary.LittleEndian_Uint16 (b0 :: b1 :: rest) =
  byte_val b0 + byte_val b1 * 2 ^ 8.
Proof.
  unfold binary.LittleEndian_Uint16, binary.at_; cbn [nth].
  pose proof (byte_val_range b0).
  apply lor_shiftl_add; lia.
Qed.

Lemma LittleEndian_Uint32_sum (b0 b1 b2 b3 : byte) (rest : list byte) :
  binary.LittleEndian_Uint32 (b0 :: b1 :: b2 :: b3 :: rest) =
  byte_val b0 + byte_val b1 * 2 ^ 8 + byte_val b2 * 2 ^ 16
    + byte_val b3 * 2 ^ 24.
Proof.
  unfold binary.LittleEndian_Uint32, binary.at_; cbn [nth].
  pose proof (byte_val_range b0). pose proof (byte_val_range b1).
  pose proof (byte_val_range b2).
  rewrite (lor_shiftl_add (byte_val b0)) by lia.
  rewrite (lor_shiftl_add (byte_val b0 + _)) by lia.
  rewrite (lor_shiftl_add (byte_val b0 + _ + _)) by lia.
  reflexivity.
Qed.

Lemma BigEndian_Uint32_sum (b0 b1 b2 b3 : byte) (rest : list byte) :
  binary.BigEndian_Uint32 (b0 :: b1 :: b2 :: b3 :: rest) =
  byte_val b3 + byte_val b2 * 2 ^ 8 + byte_val b1 * 2 ^ 16
    + byte_val b0 * 2 ^ 24.
Proof.
  unfold binary.BigEndian_Uint32, binary.at_; cbn [nth].
  pose proof (byte_val_range b3). pose proof (byte_val_range b2).
  pose proof (byte_val_range b1).
  rewrite (lor_shiftl_add (byte_val b3)) by lia.
  rewrite (lor_shiftl_add (byte_val b3 + _)) by lia.
  rewrite (lor_shiftl_add (byte_val b3 + _ + _)) by lia.
  reflexivity.
Qed.

(** Decoding a field that [le16], [le32] laid out gives the field. *)
Lemma Uint16_le16 (v : Z) (rest : list byte) :
  is_uint16 v -> binary.LittleEndian_Uint16 (le16 v ++ rest) = v.
Proof.
  unfold is_uint16, le16. intros Hv. cbn [app].
  rewrite LittleEndian_Uint16_sum, !byte_val_to_byte.
  rewrite Z.shiftr_div_pow2 by lia.
  change (2 ^ 8) with 256 in *. change (2 ^ 16) with 65536 in *.
  Z.div_mod_to_equations. lia.
Qed.

Lemma Uint32_le32 (v : Z) (rest : list byte) :
  is_uint32 v -> binary.LittleEndian_Uint32 (le32 v ++ rest) = v.
Proof.
  unfold is_uint32, le32. intros Hv. cbn [app].
  rewrite LittleEndian_Uint32_sum, !byte_val_to_byte.
  rewrite !Z.shiftr_div_pow2 by lia.
  change (2 ^ 8) with 256 in *. change (2 ^ 16) with 65536 in *.
  change (2 ^ 24) with 16777216 in *. change (2 ^ 32) with 4294967296 in *.
  Z.div_mod_to_equations. lia.
Qed.

Lemma asUint32_range (d : list byte) (f : bool) : is_uint32 (asUint32 d f).
Proof.
  assert (H : forall a b c e : byte,
             is_uint32 (byte_val a + byte_val b * 2 ^ 8 + byte_val c * 2 ^ 16
                        + byte_val e * 2 ^ 24)).
  { intros a b c e. unfold is_uint32.
    pose proof (byte_val_range a). pose proof (byte_val_range b).
    pose proof (byte_val_range c). pose proof (byte_val_range e). lia. }
  assert (Hpad : exists b0 b1 b2 b3 rest,
             forall i, (i < 4)%nat ->
               nth i d x00 = nth i (b0 :: b1 :: b2 :: b3 :: rest) x00).
  { destruct d as [|b0 [|b1 [|b2 [|b3 rest]]]].
    - exists x00, x00, x00, x00, []. intros [|[|[|[|i]]]] Hi; try lia; reflexivity.
    - exists b0, x00, x00, x00, []. intros [|[|[|[|i]]]] Hi; try lia; reflexivity.
    - exists b0, b1, x00, x00, []. intros [|[|[|[|i]]]] Hi; try lia; reflexivity.
    - exists b0, b1, b2, x00, []. intros [|[|[|[|i]]]] Hi; try lia; reflexivity.
    - exists b0, b1, b2, b3, rest. reflexivity. }
  destruct Hpad as (b0 & b1 & b2 & b3 & rest & Hnth).
  destruct f; unfold asUint32.
  - replace (binary.BigEndian_Uint32 d)
      with (binary.BigEndian_Uint32 (b0 :: b1 :: b2 :: b3 :: rest)).
    + rewrite BigEndian_Uint32_sum. apply H.
    + unfold binary.BigEndian_Uint32, binary.at_.
      rewrite !Hnth by lia. reflexivity.
  - replace (binary.LittleEndian_Uint32 d)
      with (binary.LittleEndian_Uint32 (b0 :: b1 :: b2 :: b3 :: rest)).
    + rewrite LittleEndian_Uint32_sum. apply H.
    + unfold binary.LittleEndian_Uint32, binary.at_.
      rewrite !Hnth by lia. reflexivity.
Qed.

Lemma int32_uint32 (x : Z) : is_int32 x -> int32 (uint32 x) = x.
Proof.
  unfold is_int32, int32, uint32. intros Hx.
  change (2 ^ 31) with 2147483648 in *. change (2 ^ 32) with 4294967296 in *.
  Z.div_mod_to_equations. lia.
Qed.

Lemma uint32_range (x : Z) : is_uint32 (uint32 x).
Proof. unfold is_uint32, uint32. apply Z.mod_pos_bound. lia. Qed.

Lemma uint32_small (x : Z) : is_uint32 x -> uint32 x = x.
Proof. unfold is_uint32, uint32. intros. apply Z.mod_small. lia. Qed.

(* ================================================================== *)
(** * Buffers *)

Lemma copy_at_nil (data : list byte) (n : nat) : copy_at data n [] = data.
Proof.
  unfold copy_at. cbn [app length]. rewrite Nat.add_0_r.
  apply firstn_skipn.
Qed.

Lemma length_copy_at (data chunk : list byte) (n : nat) :
  (n + length chunk <= length data)%nat ->
  length (copy_at data n chunk) = length data.
Proof.
  intros H. unfold copy_at.
  rewrite !length_app, length_firstn, length_skipn. lia.
Qed.

Lemma copy_at_app (data a b : list byte) (n : nat) :
  (n + length a <= length data)%nat ->
  copy_at (copy_at data n a) (n + length a) b = copy_at data n (a ++ b).
Proof.
  intros H. unfold copy_at.
  assert (Hn : length (firstn n data) = n) by (rewrite length_firstn; lia).
  rewrite (app_assoc (firstn n data) a).
  assert (Hna : length (firstn n data ++ a) = (n + length a)%nat)
    by (rewrite length_app; lia).
  rewrite firstn_app, Hna, Nat.sub_diag, firstn_O, app_nil_r.
  rewrite firstn_all2 by lia.
  rewrite skipn_app, Hna.
  rewrite (skipn_all2 (firstn n data ++ a)) by lia.
  cbn [app]. rewrite skipn_skipn, length_app, <- !app_assoc.
  do 4 f_equal. lia.
Qed.

(* ================================================================== *)
(** * Streams *)

Lemma Read_spec (s : stream) (k : nat) (chunk : list byte)
    (e : option error) (s' : stream) :
  Read s k = (chunk, e, s') ->
  stream_bytes s = chunk ++ stream_bytes s' /\ (length chunk <= k)%nat /\
  (clean s -> clean s' /\ (e = None \/ e = Some io_EOF /\ s' = [])).
Proof.
  unfold Read. destruct s as [|[bs eb] rest].
  - intros H. inversion H; subst. cbn [app length].
    split; [reflexivity|]. split; [lia|]. intros Hc. split; [exact Hc|].
    right. split; reflexivity.
  - destruct (Nat.ltb_spec k (length bs)); intros H0; inversion H0; subst.
    + unfold stream_bytes; cbn [flat_map fst].
      rewrite app_assoc, firstn_skipn. split; [reflexivity|].
      split; [rewrite length_firstn; lia|].
      intros Hc. inversion Hc; subst. split; [|auto].
      constructor; auto.
    + unfold stream_bytes; cbn [flat_map fst]. split; [reflexivity|].
      split; [lia|]. intros Hc. inversion Hc; subst. cbn [snd] in *. auto.
Qed.

Lemma read_loop_done (fuel : nat) (s : stream) (data : list byte) (n : nat)
    (e : option error) :
  is_nil e && negb (n =? length data)%nat = false ->
  read_loop fuel s data n e = Some (s, data, n, e).
Proof. intros H. destruct fuel; cbn [read_loop]; rewrite H; reflexivity. Qed.

(** The loop of [read] ends within its fuel, and what it leaves is the
    buffer with the bytes it took off the stream copied in. *)
Lemma read_loop_spec (fuel : nat) :
  forall (s : stream) (data : list byte) (n : nat) (e : option error),
    (length s < fuel)%nat -> (n <= length data)%nat ->
    exists s' c e',
      read_loop fuel s data n e = Some (s', copy_at data n c, (n + length c)%nat, e') /\
      stream_bytes s = c ++ stream_bytes s' /\
      (n + length c <= length data)%nat /\
      (e' = None -> (n + length c)%nat = length data) /\
      (clean s -> e = None \/ e = Some io_EOF /\ s = [] ->
       clean s' /\ (e' = None \/ e' = Some io_EOF /\ s' = [])).
Proof.
  induction fuel as [|fuel IH]; intros s data n e Hfuel Hn; [lia|].
  destruct (is_nil e && negb (n =? length data)%nat) eqn:Hcond.
  - (* one more turn *)
    apply andb_true_iff in Hcond. destruct Hcond as [He Hlen].
    destruct e; [discriminate|]. apply negb_true_iff, Nat.eqb_neq in Hlen.
    cbn [read_loop is_nil andb]. 
    replace (negb (n =? length data)%nat) with true
      by (symmetry; apply negb_true_iff, Nat.eqb_neq; exact Hlen).
    destruct (Read s (length data - n)) as [[chunk e1] s1] eqn:HR.
    pose proof (Read_spec _ _ _ _ _ HR) as (Hb & Hk & Hcl).
    unfold Read in HR. destruct s as [|[bs eb] rest].
    + (* end of stream *)
      inversion HR; subst. rewrite read_loop_done by reflexivity.
      exists [], [], (Some io_EOF). rewrite copy_at_nil.
      cbn [length]. rewrite Nat.add_0_r.
      repeat split; auto; try lia; discriminate.
    + destruct (Nat.ltb_spec (length data - n) (length bs)).
      * (* the chunk fills the buffer *)
        inversion HR; subst.
        assert (Hl : length (firstn (length data - n) bs) = (length data - n)%nat)
          by (rewrite length_firstn; lia).
        rewrite read_loop_done.
        2:{ rewrite length_copy_at by lia. rewrite Hl.
            replace (n + (length data - n))%nat with (length data) by lia.
            rewrite Nat.eqb_refl. apply andb_false_r. }
        eexists _, _, _. split; [reflexivity|].
        split; [exact Hb|]. split; [lia|]. split; [lia|].
        intros Hc _. destruct (Hcl Hc). auto.
      * (* the chunk is used up *)
        inversion HR; subst. cbn [length] in Hfuel.
        destruct (IH s1 (copy_at data n chunk) (n + length chunk)%nat e1)
          as (s' & c & e' & Hrun & Hbytes & Hle & Hfull & Hclean).
        { lia. }
        { rewrite length_copy_at; lia. }
        rewrite length_copy_at in * by lia.
        exists s', (chunk ++ c), e'.
        rewrite Hrun, copy_at_app by lia.
        rewrite length_app, Nat.add_assoc.
        split; [reflexivity|].
        split; [rewrite Hb, Hbytes; apply app_assoc|].
        split; [lia|]. split; [exact Hfull|].
        intros Hc _. destruct (Hcl Hc) as [Hc1 He1].
        apply Hclean; assumption.
  - (* the loop is over *)
    rewrite read_loop_done by exact Hcond.
    exists s, [], e. rewrite copy_at_nil. cbn [length app].
    rewrite Nat.add_0_r. split; [reflexivity|].
    split; [reflexivity|]. split; [lia|]. split.
    + intros ->. cbn [is_nil andb] in Hcond.
      apply negb_false_iff, Nat.eqb_eq in Hcond. exact Hcond.
    + intros Hc He. auto.
Qed.

(** [read], in terms of the bytes of the stream: it moves a prefix [c] of
    them into the front of the buffer, succeeds exactly when [c] fills
    the buffer, and changes nothing of the Reader but the stream. On a
    stream without errors a failure is the end of the stream. *)
Lemma read_spec (data : list byte) (r : Reader) :
  exists c e s',
    read data r = ((c ++ skipn (length c) data, e), set_buf s' r) /\
    stream_bytes (buf r) = c ++ stream_bytes s' /\
    (length c <= length data)%nat /\
    (e = None <-> length c = length data) /\
    (clean (buf r) -> clean s' /\ (e = None \/ e = Some io_EOF /\ s' = [])).
Proof.
  unfold read.
  destruct (Read (buf r) (length data)) as [[chunk e0] s0] eqn:HR.
  pose proof (Read_spec _ _ _ _ _ HR) as (Hb & Hk & Hcl).
  destruct (read_loop_spec (S (length s0)) s0 (copy_at data 0 chunk)
              (length chunk) e0) as (s' & c & e' & Hrun & Hbytes & Hle & Hfull & Hclean).
  { lia. }
  { rewrite length_copy_at; cbn [Nat.add]; lia. }
  rewrite length_copy_at in * by (cbn [Nat.add]; lia).
  rewrite Hrun.
  change (length chunk) with (0 + length chunk)%nat at 1.
  rewrite copy_at_app by (cbn [Nat.add]; lia).
  exists (chunk ++ c), (if (length data =? length chunk + length c)%nat then None else e'), s'.
  unfold copy_at at 1. cbn [firstn app Nat.add]. rewrite length_app.
  split; [reflexivity|].
  split; [rewrite Hb, Hbytes; apply app_assoc|].
  split; [lia|]. split.
  - destruct (Nat.eqb_spec (length data) (length chunk + length c)).
    + split; auto.
    + split; [|lia]. intros ->. specialize (Hfull eq_refl). lia.
  - intros Hc. destruct (Hcl Hc) as [Hc0 He0].
    assert (He0' : e0 = None \/ e0 = Some io_EOF /\ s0 = []).
    { destruct He0 as [|[? ?]]; auto. }
    destruct (Hclean Hc0 He0') as [Hc' He']. split; [exact Hc'|].
    destruct (Nat.eqb_spec (length data) (length chunk + length c)); auto.
Qed.

(** On a stream without errors that holds enough bytes, [read] fills the
    buffer with the next bytes of the stream. *)
Lemma read_clean_ok (data : list byte) (r : Reader) :
  clean (buf r) -> (length data <= length (stream_bytes (buf r)))%nat ->
  exists s',
    read data r = ((firstn (length data) (stream_bytes (buf r)), None), set_buf s' r) /\
    clean s' /\
    stream_bytes s' = skipn (length data) (stream_bytes (buf r)).
Proof.
  intros Hc Hlen.
  destruct (read_spec data r) as (c & e & s' & Hrun & Hb & Hle & Hok & Hcl).
  destruct (Hcl Hc) as [Hc' He].
  assert (Hfull : length c = length data).
  { destruct He as [He|[_ Hs]]; [apply Hok, He|].
    subst s'. cbn in Hb. rewrite app_nil_r in Hb. rewrite Hb in Hlen. lia. }
  assert (He' : e = None) by (apply Hok, Hfull).
  exists s'. rewrite Hrun, He', Hb, <- Hfull.
  rewrite (skipn_all2 data), app_nil_r by lia.
  rewrite firstn_app, Nat.sub_diag, firstn_O, app_nil_r, firstn_all.
  rewrite skipn_app, Nat.sub_diag, skipn_all. cbn [skipn app].
  auto.
Qed.

(** The same, with the stream's bytes split at the buffer's length. *)
Lemma read_clean_split (data b rest : list byte) (r : Reader) :
  clean (buf r) -> stream_bytes (buf r) = b ++ rest ->
  length b = length data ->
  exists s',
    read data r = ((b, None), set_buf s' r) /\ clean s' /\
    stream_bytes s' = rest.
Proof.
  intros Hc Hb Hl.
  destruct (read_clean_ok data r Hc) as (s' & Hrun & Hc' & Hrest).
  { rewrite Hb, length_app. lia. }
  exists s'. rewrite Hrun, Hrest, Hb, <- Hl.
  rewrite firstn_app, Nat.sub_diag, firstn_O, app_nil_r, firstn_all.
  rewrite skipn_app, Nat.sub_diag, skipn_all. auto.
Qed.

(** On a stream without errors a failed [read] has reached the end. *)
Lemma read_clean_fail (data : list byte) (r : Reader) (d : list byte)
    (e : error) (r' : Reader) :
  clean (buf r) -> read data r = ((d, Some e), r') ->
  e = io_EOF /\ buf r' = [].
Proof.
  intros Hc Hrun.
  destruct (read_spec data r) as (c & e0 & s' & Hrun' & _ & _ & _ & Hcl).
  rewrite Hrun in Hrun'. inversion Hrun'; subst.
  destruct (Hcl Hc) as [_ [He|[He Hs]]]; [discriminate|].
  inversion He; subst. auto.
Qed.

(** At the end of the stream [read] into a buffer that is not empty
    changes nothing and returns [io.EOF]. *)
Lemma read_at_end (data : list byte) (r : Reader) :
  buf r = [] -> data <> [] -> read data r = ((data, Some io_EOF), set_buf [] r).
Proof.
  intros Hs Hd. unfold read. rewrite Hs. cbn [Read length read_loop is_nil andb].
  rewrite copy_at_nil. destruct data; [contradiction|reflexivity].
Qed.

(* ================================================================== *)
(** * The methods of the Reader, step by step *)

Lemma readUint32_clean (r : Reader) (b rest : list byte) :
  clean (buf r) -> stream_bytes (buf r) = b ++ rest ->
  length b = 4%nat -> length (fourBytes r) = 4%nat ->
  exists s',
    readUint32 r = (asUint32 b (flip r),
                    set_err None (set_fourBytes b (set_buf s' r))) /\
    clean s' /\ stream_bytes s' = rest.
Proof.
  intros Hc Hb Hl H4.
  destruct (read_clean_split (fourBytes r) b rest r Hc Hb) as (s' & Hrun & Hc' & Hr).
  { lia. }
  exists s'. unfold readUint32, bind, get, modify, ret. rewrite Hrun.
  cbn. auto.
Qed.

Lemma readInt32_clean (r : Reader) (b rest : list byte) :
  clean (buf r) -> stream_bytes (buf r) = b ++ rest ->
  length b = 4%nat -> length (fourBytes r) = 4%nat ->
  exists s',
    readInt32 r = (int32 (asUint32 b (flip r)),
                   set_err None (set_fourBytes b (set_buf s' r))) /\
    clean s' /\ stream_bytes s' = rest.
Proof.
  intros Hc Hb Hl H4.
  destruct (read_clean_split (fourBytes r) b rest r Hc Hb) as (s' & Hrun & Hc' & Hr).
  { lia. }
  exists s'. unfold readInt32, bind, get, modify, ret. rewrite Hrun.
  cbn. auto.
Qed.

Lemma readUint16_clean (r : Reader) (b rest : list byte) :
  clean (buf r) -> stream_bytes (buf r) = b ++ rest ->
  length b = 2%nat -> length (twoBytes r) = 2%nat ->
  exists s',
    readUint16 r = (asUint16 b (flip r),
                    set_err None (set_twoBytes b (set_buf s' r))) /\
    clean s' /\ stream_bytes s' = rest.
Proof.
  intros Hc Hb Hl H2.
  destruct (read_clean_split (twoBytes r) b rest r Hc Hb) as (s' & Hrun & Hc' & Hr).
  { lia. }
  exists s'. unfold readUint16, bind, get, modify, ret. rewrite Hrun.
  cbn. auto.
Qed.

(** [Next] without the monad. *)
Lemma Next_unfold (r : Reader) :
  Next r =
  let '(d, e, r1) := read (sixteenBytes r) r in
  let r2 := set_err e (set_sixteenBytes d r1) in
  match e with
  | Some _ => (None, r2)
  | None =>
      let '(pd, r3) := DataPool_Get r2 in
      let '(data, e', r4) := read (Data pd) r3 in
      let r5 := set_err e' r4 in
      match e' with
      | Some _ => (None, r5)
      | None =>
          (Some (mkPacket (time.Unix (asUint32 (slice d 0 4) (flip r))
                                     (asUint32 (slice d 4 8) (flip r)))
                          (asUint32 (slice d 8 12) (flip r))
                          (asUint32 (slice d 12 16) (flip r))
                          data (mkPacketData data)), r5)
      end
  end.
Proof.
  unfold Next, bind, get, modify, ret.
  destruct (read_spec (sixteenBytes r) r) as (c & e & s' & Hrun & _).
  rewrite Hrun. cbn [fst snd]. destruct e as [e|]; cbn [is_nil]; [reflexivity|].
  match goal with |- context [DataPool_Get ?x] => destruct (DataPool_Get x) as [pd r3] eqn:HG end.
  assert (Hflip : flip r3 = flip r).
  { unfold DataPool_Get, DataPool_New, bind, get, modify, ret in HG.
    cbn in HG. destruct (DataPool r); inversion HG; reflexivity. }
  destruct (read_spec (Data pd) r3) as (c' & e' & s'' & Hrun' & _).
  rewrite Hrun'. cbn [fst snd]. destruct e'; cbn [is_nil]; [reflexivity|].
  cbn. reflexivity.
Qed.

Lemma Uint32_le32_exact (v : Z) :
  is_uint32 v -> binary.LittleEndian_Uint32 (le32 v) = v.
Proof. intros H. rewrite <- (app_nil_r (le32 v)). apply Uint32_le32, H. Qed.

Lemma Uint16_le16_exact (v : Z) :
  is_uint16 v -> binary.LittleEndian_Uint16 (le16 v) = v.
Proof. intros H. rewrite <- (app_nil_r (le16 v)). apply Uint16_le16, H. Qed.

(* ================================================================== *)
(** * Package [time] *)

Lemma Unix_in_range (s n : Z) :
  0 <= n < 1000000000 -> time.Unix s n = time.mkTime s n.
Proof.
  intros Hn. unfold time.Unix.
  destruct (Z.ltb_spec n 0); [lia|].
  destruct (Z.leb_spec 1000000000 n); [lia|]. reflexivity.
Qed.

(** For the fields of a record header [time.Unix] is the instant
    [sec] seconds and [nsec] nanoseconds after the epoch. *)
Lemma Unix_nanos (s n : Z) :
  is_uint32 s -> is_uint32 n ->
  time.nanos (time.Unix s n) = s * 1000000000 + n /\ time.wf (time.Unix s n).
Proof.
  unfold is_uint32, time.nanos, time.wf, time.Unix. intros Hs Hn.
  change (2 ^ 32) with 4294967296 in *.
  change (2 ^ 63) with 9223372036854775808.
  destruct ((n <? 0) || (1000000000 <=? n)) eqn:Hc.
  - assert (Hq : 0 <= Z.quot n 1000000000 <= 4).
    { split; [apply Z.quot_pos; lia|].
      enough (Z.quot n 1000000000 < 5) by lia.
      apply Z.quot_lt_upper_bound; lia. }
    pose proof (Z.quot_rem' n 1000000000) as Hqr.
    pose proof (Z.rem_bound_pos n 1000000000 ltac:(lia) ltac:(lia)) as Hr.
    set (q := Z.quot n 1000000000) in *. set (m := Z.rem n 1000000000) in *.
    assert (E1 : int64 (s + q) = s + q).
    { unfold int64. change (2 ^ 63) with 9223372036854775808.
      change (2 ^ 64) with 18446744073709551616.
      rewrite Z.mod_small; lia. }
    assert (E2 : int64 (n - q * 1000000000) = m).
    { unfold int64. change (2 ^ 63) with 9223372036854775808.
      change (2 ^ 64) with 18446744073709551616.
      rewrite Z.mod_small; lia. }
    rewrite E1, E2. destruct (Z.ltb_spec m 0); [lia|].
    cbn [time.sec time.nsec]. lia.
  - cbn [time.sec time.nsec]. apply orb_false_iff in Hc.
    destruct Hc as [_ Hc]. apply Z.leb_gt in Hc. lia.
Qed.

(* ================================================================== *)
(** * The Writer, in terms of the layout *)

Lemma Write_accepts (k : sink) (p : list byte) :
  faults k = [] -> Write k p = (length p, None, mkSink (written k ++ p) []).
Proof. intros H. unfold Write. rewrite H. reflexivity. Qed.

(** A write that returns no error stored all of its bytes. *)
Lemma Write_nil (k : sink) (p : list byte) (n : nat) (k' : sink) :
  Write k p = (n, None, k') -> written k' = written k ++ p.
Proof.
  unfold Write. destruct (faults k) as [|[[m e]|] rest];
    intros H; inversion H; reflexivity.
Qed.

Lemma length_record_header (p : Packet) : length (record_header p) = 16%nat.
Proof. reflexivity. Qed.

(** [NewWriter] hands the 24 bytes of the layout to the sink. *)
Lemma NewWriter_unfold (k : sink) (h : FileHeader) :
  NewWriter k h =
  let '(_, e, k') := Write k (header_bytes h) in
  match e with
  | Some e => (None, Some e, k')
  | None => (Some (mkWriter k' (header_bytes h)), None, k')
  end.
Proof. reflexivity. Qed.

Lemma list_of_length_24 (l : list byte) :
  length l = 24%nat ->
  exists b0 b1 b2 b3 b4 b5 b6 b7 b8 b9 b10 b11 b12 b13 b14 b15 tail,
    l = [b0; b1; b2; b3; b4; b5; b6; b7; b8; b9; b10; b11; b12; b13; b14; b15]
          ++ tail.
Proof.
  intros H.
  do 16 (destruct l as [|? l]; [discriminate|]).
  repeat eexists.
Qed.

(** [Writer.Write] hands the 16 bytes of the record header and then the
    whole payload buffer to the sink. *)
Lemma Writer_Write_unfold (w : Writer) (p : Packet) :
  length (w_buf w) = 24%nat ->
  Writer_Write w p =
  let buf' := record_header p ++ skipn 16 (w_buf w) in
  let '(_, e, k) := Write (writer w) (record_header p) in
  match e with
  | Some e => (Some e, mkWriter k buf')
  | None => let '(_, e, k) := Write k (pkt_Data p) in (e, mkWriter k buf')
  end.
Proof.
  intros H. destruct (list_of_length_24 _ H)
    as (b0 & b1 & b2 & b3 & b4 & b5 & b6 & b7 & b8 & b9 & b10 & b11 & b12
        & b13 & b14 & b15 & tail & Hb).
  unfold Writer_Write. rewrite Hb. reflexivity.
Qed.

Lemma Write_all_accepts (pkts : list Packet) :
  forall w, faults (writer w) = [] -> length (w_buf w) = 24%nat ->
    exists w',
      Write_all w pkts = (None, w') /\
      written (writer w') = written (writer w) ++ flat_map record_bytes pkts /\
      faults (writer w') = [] /\ length (w_buf w') = 24%nat.
Proof.
  induction pkts as [|p pkts IH]; intros w Hf Hl.
  - exists w. cbn [Write_all flat_map]. rewrite app_nil_r. auto.
  - cbn [Write_all]. rewrite Writer_Write_unfold by exact Hl.
    cbv zeta. rewrite Write_accepts by exact Hf.
    rewrite Write_accepts by reflexivity. cbn [written].
    match goal with |- context [Write_all ?w0 pkts] =>
      destruct (IH w0) as (w' & Hrun & Hw & Hf' & Hl') end.
    { reflexivity. }
    { cbn [w_buf]. rewrite length_app, length_record_header, length_skipn. lia. }
    exists w'. rewrite Hrun. split; [reflexivity|].
    split; [|auto]. rewrite Hw. cbn [writer written flat_map].
    unfold record_bytes at 2. rewrite <- !app_assoc. reflexivity.
Qed.

(** What a file written to a fresh buffer holds. *)
Lemma write_file_bytes (h : FileHeader) (pkts : list Packet) :
  write_file h pkts = Some (header_bytes h ++ flat_map record_bytes pkts).
Proof.
  unfold write_file. rewrite NewWriter_unfold.
  rewrite Write_accepts by reflexivity. cbv zeta iota beta.
  match goal with |- context [Write_all ?w0 pkts] =>
    destruct (Write_all_accepts pkts w0) as (w' & Hrun & Hw & _) end.
  { reflexivity. }
  { reflexivity. }
  rewrite Hrun, Hw. reflexivity.
Qed.

(* ================================================================== *)
(** * [NewReader] on a stream that holds a whole header *)

Lemma NewReader_clean (s : stream) (m : Z) (f : bool)
    (bm bmaj bmin btz bsig bsnap blink rest : list byte) :
  clean s ->
  stream_bytes s = bm ++ bmaj ++ bmin ++ btz ++ bsig ++ bsnap ++ blink ++ rest ->
  length bm = 4%nat -> length bmaj = 2%nat -> length bmin = 2%nat ->
  length btz = 4%nat -> length bsig = 4%nat -> length bsnap = 4%nat ->
  length blink = 4%nat ->
  binary.LittleEndian_Uint32 bm = m ->
  native_magic m /\ f = false \/ swapped_magic m /\ f = true ->
  exists r,
    NewReader s = (Some r, None) /\ flip r = f /\
    Header r = mkFileHeader 0xa1b23c4d (asUint16 bmaj f) (asUint16 bmin f)
                 (int32 (asUint32 btz f)) (asUint32 bsig f)
                 (asUint32 bsnap f) (asUint32 blink f) /\
    err r = None /\ clean (buf r) /\ stream_bytes (buf r) = rest /\
    Reader_wf r /\ DataPool r = [] /\ Count r = 0.
Proof.
  intros Hc Hb Lm Lmaj Lmin Ltz Lsig Lsnap Llink Hm Hmagic.
  unfold NewReader.
  match goal with |- context [readUint32 ?r] =>
    destruct (readUint32_clean r bm _ Hc Hb Lm eq_refl) as (s0 & Hrun0 & Hc0 & Hb0) end.
  rewrite Hrun0. cbn [flip asUint32]. rewrite Hm. clear Hrun0.
  destruct Hmagic as [[[-> | ->] ->] | [[-> | ->] ->]];
    cbn [Z.eqb Pos.eqb orb].
  all: unfold bind.
  all: match goal with |- context [readUint16 ?r] =>
    destruct (readUint16_clean r bmaj _ Hc0 Hb0 Lmaj eq_refl) as (s1 & Hrun1 & Hc1 & Hb1) end;
  rewrite Hrun1; clear Hrun1;
  match goal with |- context [readUint16 ?r] =>
    destruct (readUint16_clean r bmin _ Hc1 Hb1 Lmin Lmaj) as (s2 & Hrun2 & Hc2 & Hb2) end;
  rewrite Hrun2; clear Hrun2;
  match goal with |- context [readInt32 ?r] =>
    destruct (readInt32_clean r btz _ Hc2 Hb2 Ltz Lm) as (s3 & Hrun3 & Hc3 & Hb3) end;
  rewrite Hrun3; clear Hrun3;
  match goal with |- context [readUint32 ?r] =>
    destruct (readUint32_clean r bsig _ Hc3 Hb3 Lsig Ltz) as (s4 & Hrun4 & Hc4 & Hb4) end;
  rewrite Hrun4; clear Hrun4;
  match goal with |- context [readUint32 ?r] =>
    destruct (readUint32_clean r bsnap _ Hc4 Hb4 Lsnap Lsig) as (s5 & Hrun5 & Hc5 & Hb5) end;
  rewrite Hrun5; clear Hrun5;
  match goal with |- context [readUint32 ?r] =>
    destruct (readUint32_clean r blink _ Hc5 Hb5 Llink Lsnap) as (s6 & Hrun6 & Hc6 & Hb6) end;
  rewrite Hrun6; clear Hrun6;
  (eexists; split; [reflexivity|]; cbn; repeat split; auto).
Qed.

(* ================================================================== *)
(** * [Next] on a stream that holds a whole record *)

Lemma DataPool_Get_spec (r : Reader) :
  Forall (fun pd => length (Data pd) = Z.to_nat (SnapLen (Header r))) (DataPool r) ->
  exists pd r',
    DataPool_Get r = (pd, r') /\
    length (Data pd) = Z.to_nat (SnapLen (Header r)) /\
    r' = set_Count (Count r') (set_DataPool (DataPool r') r) /\
    (DataPool r = [] /\ DataPool r' = [] /\ Count r' = int64 (Count r + 1) /\
     Data pd = make (Z.to_nat (SnapLen (Header r)))
     \/ DataPool r = pd :: DataPool r' /\ Count r' = Count r).
Proof.
  intros Hwf. unfold DataPool_Get, DataPool_New, bind, get, modify, ret.
  destruct r as [fl b e fb tb sb pool hd cnt]. cbn in *.
  destruct pool as [|pd pool].
  - eexists _, _. split; [reflexivity|]. cbn.
    unfold make. rewrite repeat_length. auto 10.
  - inversion Hwf; subst. eexists _, _. split; [reflexivity|]. cbn. auto 10.
Qed.

Lemma Next_clean (r : Reader) (hdr payload rest : list byte) :
  Reader_wf r -> clean (buf r) ->
  stream_bytes (buf r) = hdr ++ payload ++ rest ->
  length hdr = 16%nat -> length payload = Z.to_nat (SnapLen (Header r)) ->
  exists r',
    Next r = (Some (mkPacket (time.Unix (asUint32 (slice hdr 0 4) (flip r))
                                        (asUint32 (slice hdr 4 8) (flip r)))
                             (asUint32 (slice hdr 8 12) (flip r))
                             (asUint32 (slice hdr 12 16) (flip r))
                             payload (mkPacketData payload)), r') /\
    clean (buf r') /\ stream_bytes (buf r') = rest /\ Reader_wf r' /\
    flip r' = flip r /\ Header r' = Header r /\ err r' = None /\
    sixteenBytes r' = hdr /\
    (DataPool r = [] /\ DataPool r' = [] /\ Count r' = int64 (Count r + 1)
     \/ (exists pd, DataPool r = pd :: DataPool r') /\ Count r' = Count r).
Proof.
  intros (H4 & H2 & H16 & Hpool) Hc Hb Lh Lp.
  rewrite Next_unfold.
  destruct (read_clean_split (sixteenBytes r) hdr _ r Hc Hb) as (s1 & Hrun1 & Hc1 & Hb1).
  { lia. }
  rewrite Hrun1. cbv zeta.
  match goal with |- context [DataPool_Get ?x] =>
    destruct (DataPool_Get_spec x) as (pd & r3 & HG & Lpd & Hr3 & Hcase) end.
  { exact Hpool. }
  rewrite HG.
  assert (Hbuf3 : buf r3 = s1) by (rewrite Hr3; reflexivity).
  destruct (read_clean_split (Data pd) payload rest r3) as (s2 & Hrun2 & Hc2 & Hb2).
  { rewrite Hbuf3. exact Hc1. }
  { rewrite Hbuf3. exact Hb1. }
  { rewrite Lpd. exact Lp. }
  rewrite Hrun2.
  eexists. split; [reflexivity|].
  rewrite Hr3. cbn.
  repeat (split; [solve [auto]|]).
  split.
  - unfold Reader_wf. cbn. repeat (split; [solve [auto]|]).
    destruct Hcase as [(Hp & Hp' & _)|[Hp _]].
    + rewrite Hp'. constructor.
    + cbn in Hp. rewrite Hp in Hpool. inversion Hpool; assumption.
  - repeat (split; [solve [auto]|]).
    destruct Hcase as [(Hp & Hp' & Hcnt & _)|[Hp Hcnt]]; cbn in *.
    + left. auto.
    + right. split; [exists pd; exact Hp|exact Hcnt].
Qed.

(** On a stream without errors that holds fewer bytes than the buffer,
    [read] fails with [io.EOF] and leaves the stream at its end. *)
Lemma read_clean_short (data : list byte) (r : Reader) :
  clean (buf r) -> (length (stream_bytes (buf r)) < length data)%nat ->
  exists d, read data r = ((d, Some io_EOF), set_buf [] r).
Proof.
  intros Hc Hlen.
  destruct (read_spec data r) as (c & e & s' & Hrun & Hb & Hle & Hok & Hcl).
  destruct (Hcl Hc) as [_ [He|[He Hs]]].
  - apply Hok in He. rewrite Hb, length_app in Hlen. lia.
  - subst. eexists. exact Hrun.
Qed.

Lemma clean_of_bytes (bs : list byte) :
  clean (of_bytes bs) /\ stream_bytes (of_bytes bs) = bs.
Proof.
  split; [repeat constructor|]. unfold of_bytes, stream_bytes. cbn.
  apply app_nil_r.
Qed.

(** The fields of a record header, cut out of the 16 bytes. *)
Lemma record_header_fields (a b c d : Z) :
  let hdr := le32 a ++ le32 b ++ le32 c ++ le32 d in
  slice hdr 0 4 = le32 a /\ slice hdr 4 8 = le32 b /\
  slice hdr 8 12 = le32 c /\ slice hdr 12 16 = le32 d.
Proof. repeat split. Qed.

(** Reading back a record the Writer laid out. *)
Lemma Next_written (r : Reader) (p : Packet) (rest : list byte) :
  Reader_wf r -> clean (buf r) -> flip r = false ->
  stream_bytes (buf r) = record_bytes p ++ rest ->
  Packet_for (Header r) p -> fits_seconds p ->
  exists q r',
    Next r = (Some q, r') /\ record_tuple q = record_tuple p /\
    Reader_wf r' /\ clean (buf r') /\ flip r' = false /\
    Header r' = Header r /\ stream_bytes (buf r') = rest.
Proof.
  intros Hwf Hc Hf Hb (Hcap & Hlen & (Hsec & Hnsec) & Hdata) Hfit.
  unfold record_bytes in Hb. rewrite <- app_assoc in Hb.
  destruct (Next_clean r _ _ _ Hwf Hc Hb (length_record_header p) Hdata)
    as (r' & Hrun & Hc' & Hb' & Hwf' & Hf' & Hh' & _).
  eexists _, r'. split; [exact Hrun|].
  split; [|rewrite Hf' ; auto].
  unfold record_tuple; cbn [Time Caplen Len pkt_Data].
  unfold record_header.
  destruct (record_header_fields (uint32 (time.Time_Unix (Time p)))
              (uint32 (time.Time_Nanosecond (Time p))) (Caplen p) (Len p))
    as (-> & -> & -> & ->).
  rewrite Hf. unfold asUint32.
  rewrite !Uint32_le32_exact by (try apply uint32_range; assumption).
  unfold fits_seconds in Hfit. unfold time.Time_Unix, time.Time_Nanosecond.
  rewrite (uint32_small (time.sec (Time p))) by exact Hfit.
  rewrite (uint32_small (time.nsec (Time p)))
    by (unfold is_uint32; change (2 ^ 32) with 4294967296; lia).
  rewrite Unix_in_range by exact Hnsec.
  destruct (Time p). reflexivity.
Qed.

Lemma Next_n_written (pkts : list Packet) :
  forall (r : Reader) (rest : list byte),
    Reader_wf r -> clean (buf r) -> flip r = false ->
    stream_bytes (buf r) = flat_map record_bytes pkts ++ rest ->
    Forall (Packet_for (Header r)) pkts -> Forall fits_seconds pkts ->
    exists qs r',
      Next_n (length pkts) r = (map Some qs, r') /\
      map record_tuple qs = map record_tuple pkts /\
      Reader_wf r' /\ clean (buf r') /\ flip r' = false /\
      Header r' = Header r /\ stream_bytes (buf r') = rest.
Proof.
  induction pkts as [|p pkts IH]; intros r rest Hwf Hc Hf Hb Hfor Hfit.
  - exists [], r. cbn in *. auto 10.
  - inversion Hfor as [|? ? Hp Hfor']; subst.
    inversion Hfit as [|? ? Hs Hfit']; subst.
    cbn [flat_map] in Hb. rewrite <- app_assoc in Hb.
    destruct (Next_written r p _ Hwf Hc Hf Hb Hp Hs)
      as (q & r1 & Hrun & Htup & Hwf1 & Hc1 & Hf1 & Hh1 & Hb1).
    rewrite <- Hh1 in Hfor'.
    destruct (IH r1 rest Hwf1 Hc1 Hf1 Hb1 Hfor' Hfit')
      as (qs & r' & Hrun' & Htups & Hwf' & Hc' & Hf' & Hh' & Hb').
    exists (q :: qs), r'.
    cbn [length Next_n]. unfold bind at 1. rewrite Hrun.
    unfold bind at 1. rewrite Hrun'. unfold ret.
    cbn [map]. rewrite Htup, Htups, Hh', Hh1. auto 10.
Qed.

(** After the last record [Next] returns nil. *)
Lemma Next_at_end (r : Reader) :
  Reader_wf r -> clean (buf r) -> stream_bytes (buf r) = [] ->
  fst (Next r) = None /\ err (snd (Next r)) = Some io_EOF.
Proof.
  intros (_ & _ & H16 & _) Hc Hb. rewrite Next_unfold.
  destruct (read_clean_short (sixteenBytes r) r Hc) as (d & Hrun).
  { rewrite Hb, H16. cbn. lia. }
  rewrite Hrun. cbn. auto.
Qed.

(* ================================================================== *)
(** * What the field readers leave alone *)

Lemma readUint32_frame (r : Reader) : field_step r (snd (readUint32 r)).
Proof.
  unfold readUint32, bind, get, modify, ret.
  destruct (read_spec (fourBytes r) r) as (c & e & s' & Hrun & _).
  rewrite Hrun. destruct e; cbn; unfold set_err, set_fourBytes, set_twoBytes, set_buf; cbn; constructor.
Qed.

Lemma readInt32_frame (r : Reader) : field_step r (snd (readInt32 r)).
Proof.
  unfold readInt32, bind, get, modify, ret.
  destruct (read_spec (fourBytes r) r) as (c & e & s' & Hrun & _).
  rewrite Hrun. destruct e; cbn; unfold set_err, set_fourBytes, set_twoBytes, set_buf; cbn; constructor.
Qed.

Lemma readUint16_frame (r : Reader) : field_step r (snd (readUint16 r)).
Proof.
  unfold readUint16, bind, get, modify, ret.
  destruct (read_spec (twoBytes r) r) as (c & e & s' & Hrun & _).
  rewrite Hrun. destruct e; cbn; unfold set_err, set_fourBytes, set_twoBytes, set_buf; cbn; constructor.
Qed.

(** [NewReader] as a function of the magic value it read: the Reader it
    returns has the byte order of the magic and the constant
    [0xa1b23c4d] in its header, and the error it returns is nil. *)
Lemma NewReader_cases (s : stream) :
  let r0 := mkReader false s None (make 4) (make 2) (make 16) []
                     (mkFileHeader 0 0 0 0 0 0 0) 0 in
  let magic := fst (readUint32 r0) in
  (native_magic magic /\
   exists r, NewReader s = (Some r, None) /\ flip r = false /\
             MagicNumber (Header r) = 0xa1b23c4d /\ DataPool r = [] /\ Count r = 0)
  \/ (swapped_magic magic /\
      exists r, NewReader s = (Some r, None) /\ flip r = true /\
                MagicNumber (Header r) = 0xa1b23c4d /\ DataPool r = [] /\ Count r = 0)
  \/ (~ accepted_magic magic /\ NewReader s = (None, Some (bad_magic magic))).
Proof.
  intros r0 magic. unfold NewReader. fold r0.
  pose proof (readUint32_frame r0) as Hfr.
  destruct (readUint32 r0) as [m r1] eqn:Hm. subst magic. cbn [fst snd] in *.
  assert (Hbody : forall f, exists r,
    (let m0 : M unit :=
       versionMajor <- readUint16 ;;
       versionMinor <- readUint16 ;;
       timeZone <- readInt32 ;;
       sigFigs <- readUint32 ;;
       snapLen <- readUint32 ;;
       linkType <- readUint32 ;;
       modify (set_Header (mkFileHeader 0xa1b23c4d versionMajor versionMinor
                                        timeZone sigFigs snapLen linkType)) ;;;
       modify (set_DataPool []) in
     (Some (snd (m0 (set_flip f r1))), @None error)) = (Some r, None) /\
    flip r = f /\ MagicNumber (Header r) = 0xa1b23c4d /\ DataPool r = [] /\ Count r = 0).
  { intros f. eexists. split; [reflexivity|].
    cbv zeta. unfold bind.
    set (ra := set_flip f r1).
    assert (Ha : flip ra = f /\ Count ra = 0).
    { subst ra. destruct Hfr. cbn. auto. }
    clearbody ra.
    pose proof (readUint16_frame ra) as F1.
    destruct (readUint16 ra) as [v1 rb]. cbn [snd] in F1.
    pose proof (readUint16_frame rb) as F2.
    destruct (readUint16 rb) as [v2 rc]. cbn [snd] in F2.
    pose proof (readInt32_frame rc) as F3.
    destruct (readInt32 rc) as [v3 rd]. cbn [snd] in F3.
    pose proof (readUint32_frame rd) as F4.
    destruct (readUint32 rd) as [v4 re]. cbn [snd] in F4.
    pose proof (readUint32_frame re) as F5.
    destruct (readUint32 re) as [v5 rf]. cbn [snd] in F5.
    pose proof (readUint32_frame rf) as F6.
    destruct (readUint32 rf) as [v6 rg]. cbn [snd] in F6.
    destruct F6, F5, F4, F3, F2, F1. cbn. tauto. }
  destruct (Z.eqb_spec m 0xa1b2c3d4) as [E1|N1];
    [|destruct (Z.eqb_spec m 0xa1b23c4d) as [E2|N2]]; cbn [orb].
  - left. split; [left; exact E1|]. apply Hbody.
  - left. split; [right; exact E2|]. apply Hbody.
  - destruct (Z.eqb_spec m 0xd4c3b2a1) as [E3|N3];
      [|destruct (Z.eqb_spec m 0x4d3cb2a1) as [E4|N4]]; cbn [orb].
    + right; left. split; [left; exact E3|]. apply Hbody.
    + right; left. split; [right; exact E4|]. apply Hbody.
    + right; right. split; [|reflexivity].
      unfold accepted_magic, native_magic, swapped_magic. tauto.
Qed.

Lemma magic_classes_disjoint (m : Z) : native_magic m -> swapped_magic m -> False.
Proof. unfold native_magic, swapped_magic. lia. Qed.

(** [stream_magic] is the value [NewReader] switches on; a stream that
    cannot supply four bytes makes it switch on 0. *)
Lemma readUint32_stream_magic (s : stream) :
  fst (readUint32 (mkReader false s None (make 4) (make 2) (make 16) []
                            (mkFileHeader 0 0 0 0 0 0 0) 0)) =
  match stream_magic s with Some m => m | None => 0 end.
Proof.
  unfold stream_magic, readUint32, bind, get, modify, ret. cbn [fourBytes].
  match goal with |- context [read (make 4) ?r] =>
    destruct (read_spec (make 4) r) as (c & e & s' & Hrun & _) end.
  rewrite Hrun. cbn [fst snd]. destruct e; reflexivity.
Qed.

Lemma zero_not_accepted : ~ accepted_magic 0.
Proof. unfold accepted_magic, native_magic, swapped_magic. lia. Qed.

(** A [read] that succeeds took exactly the buffer's length off the
    front of the stream. *)
Lemma read_ok (data d : list byte) (r r1 : Reader) :
  read data r = ((d, None), r1) ->
  d = firstn (length data) (stream_bytes (buf r)) /\
  stream_bytes (buf r) = d ++ stream_bytes (buf r1) /\
  length d = length data /\ r1 = set_buf (buf r1) r /\
  (clean (buf r) -> clean (buf r1)).
Proof.
  intros Hrun.
  destruct (read_spec data r) as (c & e & s' & Hrun' & Hb & Hle & Hok & Hcl).
  rewrite Hrun in Hrun'. inversion Hrun' as [[Hd He Hr]].
  assert (Hfull : length c = length data) by (apply Hok; auto).
  rewrite (skipn_all2 data), app_nil_r by lia.
  split; [|split; [|split; [|split]]].
  - rewrite Hb, <- Hfull, firstn_app, Nat.sub_diag, firstn_O, app_nil_r.
    symmetry. apply firstn_all.
  - exact Hb.
  - exact Hfull.
  - reflexivity.
  - intros Hc. apply Hcl, Hc.
Qed.

(** A [read] keeps the length of the buffer, also when it fails. *)
Lemma read_length (data d : list byte) (e : option error) (r r1 : Reader) :
  read data r = ((d, e), r1) -> length d = length data /\ r1 = set_buf (buf r1) r.
Proof.
  intros Hrun.
  destruct (read_spec data r) as (c & e0 & s' & Hrun' & _ & Hle & _).
  rewrite Hrun in Hrun'. inversion Hrun'. split; [|reflexivity].
  rewrite length_app, length_skipn. lia.
Qed.

Lemma DataPool_Get_frame (r : Reader) (pd : PacketData) (r' : Reader) :
  DataPool_Get r = (pd, r') ->
  r' = set_Count (Count r') (set_DataPool (DataPool r') r).
Proof.
  unfold DataPool_Get, DataPool_New, bind, get, modify, ret.
  destruct r as [fl b e fb tb sb pool hd cnt]. cbn.
  destruct pool; intros H; inversion H; reflexivity.
Qed.

(** On a stream without errors a call of [Next] that returns no record
    leaves the stream at its end and [io.EOF] in the Reader. *)
Lemma Next_fail_clean (r : Reader) :
  length (sixteenBytes r) = 16%nat -> clean (buf r) -> fst (Next r) = None ->
  exhausted (snd (Next r)) /\ err (snd (Next r)) = Some io_EOF.
Proof.
  intros H16 Hc. rewrite Next_unfold.
  destruct (read (sixteenBytes r) r) as [[d e] r1] eqn:Hrun1.
  destruct (read_length _ _ _ _ _ Hrun1) as [Ld Hr1].
  destruct e as [e|].
  - destruct (read_clean_fail _ _ _ _ _ Hc Hrun1) as [-> Hb1].
    intros _. cbn. unfold exhausted. cbn. rewrite Hb1, Ld. auto.
  - destruct (read_ok _ _ _ _ Hrun1) as (_ & _ & _ & _ & Hc1).
    specialize (Hc1 Hc). cbv zeta.
    destruct (DataPool_Get _) as [pd r3] eqn:HG.
    pose proof (DataPool_Get_frame _ _ _ HG) as Hr3.
    destruct (read (Data pd) r3) as [[data e'] r4] eqn:Hrun2.
    destruct (read_length _ _ _ _ _ Hrun2) as [_ Hr4].
    destruct e' as [e'|]; [|discriminate].
    assert (Hc3 : clean (buf r3)) by (rewrite Hr3; exact Hc1).
    destruct (read_clean_fail _ _ _ _ _ Hc3 Hrun2) as [-> Hb4].
    intros _. unfold exhausted. cbn. rewrite Hb4, Hr4, Hr3. cbn.
    rewrite Ld. auto.
Qed.

(** At the end of the stream [Next] returns no record, stores [io.EOF]
    and stays at the end. *)
Lemma Next_exhausted (r : Reader) :
  exhausted r ->
  fst (Next r) = None /\ err (snd (Next r)) = Some io_EOF /\
  exhausted (snd (Next r)).
Proof.
  intros [Hb H16]. rewrite Next_unfold, read_at_end; [|exact Hb|].
  - cbn. unfold exhausted. cbn. auto.
  - intros E. rewrite E in H16. discriminate.
Qed.

Lemma Next_n_exhausted (n : nat) :
  forall r, exhausted r -> exhausted (snd (Next_n n r)).
Proof.
  induction n as [|n IH]; intros r Hr; [exact Hr|].
  cbn [Next_n]. unfold bind at 1.
  destruct (Next_exhausted r Hr) as (_ & _ & Hr').
  destruct (Next r) as [p r1]. cbn [snd] in Hr'.
  unfold bind. specialize (IH r1 Hr').
  destruct (Next_n n r1) as [ps r2]. exact IH.
Qed.

(* ================================================================== *)
(** * [Reader_wf] is an invariant *)

Lemma readUint32_lengths (r : Reader) :
  length (fourBytes (snd (readUint32 r))) = length (fourBytes r) /\
  twoBytes (snd (readUint32 r)) = twoBytes r.
Proof.
  unfold readUint32, bind, get, modify, ret.
  destruct (read (fourBytes r) r) as [[d e] r1] eqn:Hrun.
  destruct (read_length _ _ _ _ _ Hrun) as [Ld Hr1].
  rewrite Hr1. destruct e; cbn; auto.
Qed.

Lemma readInt32_lengths (r : Reader) :
  length (fourBytes (snd (readInt32 r))) = length (fourBytes r) /\
  twoBytes (snd (readInt32 r)) = twoBytes r.
Proof.
  unfold readInt32, bind, get, modify, ret.
  destruct (read (fourBytes r) r) as [[d e] r1] eqn:Hrun.
  destruct (read_length _ _ _ _ _ Hrun) as [Ld Hr1].
  rewrite Hr1. destruct e; cbn; auto.
Qed.

Lemma readUint16_lengths (r : Reader) :
  fourBytes (snd (readUint16 r)) = fourBytes r /\
  length (twoBytes (snd (readUint16 r))) = length (twoBytes r).
Proof.
  unfold readUint16, bind, get, modify, ret.
  destruct (read (twoBytes r) r) as [[d e] r1] eqn:Hrun.
  destruct (read_length _ _ _ _ _ Hrun) as [Ld Hr1].
  rewrite Hr1. destruct e; cbn; auto.
Qed.

(** Every Reader that [NewReader] returns is well formed, also one whose
    header reads were short. *)
Lemma NewReader_wf (s : stream) (r : Reader) (e : option error) :
  NewReader s = (Some r, e) -> Reader_wf r.
Proof.
  unfold NewReader.
  set (r0 := mkReader false s None (make 4) (make 2) (make 16) []
                      (mkFileHeader 0 0 0 0 0 0 0) 0).
  pose proof (readUint32_lengths r0) as [L4 L2].
  pose proof (readUint32_frame r0) as F0.
  destruct (readUint32 r0) as [m r1]. cbn [snd] in *.
  assert (Hbody : forall f r',
    Some (snd ((versionMajor <- readUint16 ;;
                versionMinor <- readUint16 ;;
                timeZone <- readInt32 ;;
                sigFigs <- readUint32 ;;
                snapLen <- readUint32 ;;
                linkType <- readUint32 ;;
                modify (set_Header (mkFileHeader 0xa1b23c4d versionMajor
                          versionMinor timeZone sigFigs snapLen linkType)) ;;;
                modify (set_DataPool [])) (set_flip f r1))) = Some r' ->
    Reader_wf r').
  { intros f r'. unfold bind.
    set (ra := set_flip f r1).
    assert (Ha : length (fourBytes ra) = 4%nat /\ length (twoBytes ra) = 2%nat
                 /\ length (sixteenBytes ra) = 16%nat).
    { subst ra. cbn. rewrite L4, L2. destruct F0. cbn. auto. }
    clearbody ra. destruct Ha as (A4 & A2 & A16).
    pose proof (readUint16_frame ra) as F1.
    pose proof (readUint16_lengths ra) as [B4 B2].
    destruct (readUint16 ra) as [v1 rb]. cbn [snd] in *.
    pose proof (readUint16_frame rb) as F2.
    pose proof (readUint16_lengths rb) as [C4 C2].
    destruct (readUint16 rb) as [v2 rc]. cbn [snd] in *.
    pose proof (readInt32_frame rc) as F3.
    pose proof (readInt32_lengths rc) as [D4 D2].
    destruct (readInt32 rc) as [v3 rd]. cbn [snd] in *.
    pose proof (readUint32_frame rd) as F4.
    pose proof (readUint32_lengths rd) as [E4 E2].
    destruct (readUint32 rd) as [v4 re]. cbn [snd] in *.
    pose proof (readUint32_frame re) as F5.
    pose proof (readUint32_lengths re) as [G4 G2].
    destruct (readUint32 re) as [v5 rf]. cbn [snd] in *.
    pose proof (readUint32_frame rf) as F6.
    pose proof (readUint32_lengths rf) as [H4 H2].
    destruct (readUint32 rf) as [v6 rg]. cbn [snd] in *.
    intros H. inversion H; subst r'. clear H.
    unfold Reader_wf. cbn.
    split; [congruence|]. split; [congruence|].
    split; [|constructor].
    destruct F6, F5, F4, F3, F2, F1. cbn in *. exact A16. }
  destruct ((m =? 0xa1b2c3d4) || (m =? 0xa1b23c4d)).
  - intros H. inversion H as [[Hr He]]. eapply Hbody. rewrite Hr. reflexivity.
  - destruct ((m =? 0xd4c3b2a1) || (m =? 0x4d3cb2a1)); [|discriminate].
    intros H. inversion H as [[Hr He]]. eapply Hbody. rewrite Hr. reflexivity.
Qed.

(** [Next] keeps a Reader well formed, whether it returns a record or
    not, and the buffer of a record it returns has [SnapLen] bytes. *)
Lemma Next_wf (r : Reader) :
  Reader_wf r ->
  Reader_wf (snd (Next r)) /\ Header (snd (Next r)) = Header r /\
  forall q, fst (Next r) = Some q ->
            length (Data (pkt_PacketData q)) = Z.to_nat (SnapLen (Header r)).
Proof.
  intros (H4 & H2 & H16 & Hpool). rewrite Next_unfold.
  destruct (read (sixteenBytes r) r) as [[d e] r1] eqn:Hrun1.
  destruct (read_length _ _ _ _ _ Hrun1) as [Ld Hr1].
  destruct e as [e|].
  - rewrite Hr1. unfold Reader_wf. cbn. split; [|split; [reflexivity|discriminate]].
    rewrite Ld. auto.
  - cbv zeta.
    match goal with |- context [DataPool_Get ?x] =>
      destruct (DataPool_Get_spec x) as (pd & r3 & HG & Lpd & Hr3 & Hcase) end.
    { rewrite Hr1. exact Hpool. }
    rewrite HG.
    destruct (read (Data pd) r3) as [[data e'] r4] eqn:Hrun2.
    destruct (read_length _ _ _ _ _ Hrun2) as [Ldata Hr4].
    assert (Hpool' : Forall (fun pd0 => length (Data pd0)
                               = Z.to_nat (SnapLen (Header r))) (DataPool r3)).
    { destruct Hcase as [(_ & -> & _)|[Hp _]]; [constructor|].
      rewrite Hr1 in Hp. cbn in Hp. rewrite Hp in Hpool.
      inversion Hpool; assumption. }
    assert (Hwf : Reader_wf (set_err e' r4) /\ Header (set_err e' r4) = Header r).
    { rewrite Hr4, Hr3, Hr1. unfold Reader_wf. cbn. rewrite Ld. auto. }
    destruct e'; cbn [fst snd]; (split; [apply Hwf|split; [apply Hwf|]]).
    + discriminate.
    + intros q Hq. inversion Hq. cbn. rewrite Ldata, Lpd, Hr1. reflexivity.
Qed.

(** Releasing the buffer of a record that [Next] returned keeps the
    Reader well formed. *)
Lemma DataPool_Put_wf (r : Reader) (pd : PacketData) :
  Reader_wf r -> length (Data pd) = Z.to_nat (SnapLen (Header r)) ->
  Reader_wf (snd (DataPool_Put pd r)).
Proof.
  intros (H4 & H2 & H16 & Hpool) Lpd. unfold DataPool_Put, modify, Reader_wf.
  cbn. auto.
Qed.

(* ================================================================== *)
(** * The properties of the specification *)


(** C1, as amended. A file that the Writer wrote for a header with a
    native-endian magic value and packets whose payload buffers have
    SnapLen bytes and whose timestamps fit the 32-bit seconds field reads
    back, from any error-free stream of its bytes, as a header equal to
    the written one in every field but MagicNumber, which is 0xa1b23c4d,
    and as the same (timestamp, captured length, original length,
    payload) tuples in order; the next call after them returns nil. *)
Theorem Writer_Reader_roundtrip (h : FileHeader) (pkts : list Packet)
    (s : stream) :
  FileHeader_wf h -> native_magic (MagicNumber h) ->
  Forall (Packet_for h) pkts -> Forall fits_seconds pkts ->
  clean s -> write_file h pkts = Some (stream_bytes s) ->
  exists r qs r',
    NewReader s = (Some r, None) /\
    Header r = stored_header h /\
    (MagicNumber h = 0xa1b23c4d -> Header r = h) /\
    Next_n (length pkts) r = (map Some qs, r') /\
    map record_tuple qs = map record_tuple pkts /\
    fst (Next r') = None.
Proof.
  intros (Hmag & Hmaj & Hmin & Htz & Hsig & Hsnap & Hlink) Hnat Hfor Hfit Hc Hw.
  rewrite write_file_bytes in Hw.
  assert (Hb : stream_bytes s = header_bytes h ++ flat_map record_bytes pkts)
    by congruence.
  clear Hw. unfold header_bytes in Hb. rewrite <- !app_assoc in Hb.
  destruct (NewReader_clean s (MagicNumber h) false _ _ _ _ _ _ _ _ Hc Hb)
    as (r & Hrun & Hf & Hh & _ & Hc' & Hb' & Hwf & _); try reflexivity.
  { apply Uint32_le32_exact, Hmag. }
  { left. auto. }
  assert (Hstored : Header r = stored_header h).
  { rewrite Hh. unfold asUint16, asUint32, stored_header.
    rewrite !Uint32_le32_exact, !Uint16_le16_exact, int32_uint32
      by (try apply uint32_range; assumption).
    reflexivity. }
  rewrite <- (app_nil_r (flat_map record_bytes pkts)) in Hb'.
  destruct (Next_n_written pkts r [] Hwf Hc' Hf Hb')
    as (qs & r' & Hrun' & Htup & Hwf' & Hc'' & _ & _ & Hb''); [|exact Hfit|].
  { rewrite Hstored. exact Hfor. }
  exists r, qs, r'. repeat (split; [assumption|]).
  split; [|split; [exact Hrun'|split; [exact Htup|]]].
  - intros E. rewrite Hstored. unfold stored_header. rewrite <- E.
    destruct h; reflexivity.
  - apply Next_at_end; assumption.
Qed.

(** The round trip of the example file with the magic 0xa1b2c3d4. *)
Lemma Writer_Reader_roundtrip_example :
  exists r qs r',
    NewReader (of_bytes (file_bytes (example_header 0xa1b2c3d4) [example_packet]))
      = (Some r, None) /\
    Header r = stored_header (example_header 0xa1b2c3d4) /\
    (MagicNumber (example_header 0xa1b2c3d4) = 0xa1b23c4d ->
     Header r = example_header 0xa1b2c3d4) /\
    Next_n (length [example_packet]) r = (map Some qs, r') /\
    map record_tuple qs = map record_tuple [example_packet] /\
    fst (Next r') = None.
Proof.
  apply (Writer_Reader_roundtrip (example_header 0xa1b2c3d4) [example_packet]
           (of_bytes (file_bytes (example_header 0xa1b2c3d4) [example_packet]))).
  - ranges.
  - left. reflexivity.
  - repeat constructor; cbv; congruence.
  - repeat constructor; cbv; congruence.
  - repeat constructor.
  - vm_compute. reflexivity.
Defined.

(** C1, as stated, fails twice. A header with the native magic
    0xa1b2c3d4 reads back with MagicNumber 0xa1b23c4d; a header with the
    swapped magic 0xd4c3b2a1 is written little-endian and read
    big-endian, so SnapLen 4 reads back as 0x04000000. *)
Lemma roundtrip_not_field_by_field :
  (exists bs r,
      write_file (example_header 0xa1b2c3d4) [example_packet] = Some bs /\
      NewReader (of_bytes bs) = (Some r, None) /\
      MagicNumber (Header r) = 0xa1b23c4d /\
      Header r <> example_header 0xa1b2c3d4) /\
  (exists bs r,
      write_file (example_header 0xd4c3b2a1) [example_packet] = Some bs /\
      NewReader (of_bytes bs) = (Some r, None) /\
      SnapLen (Header r) = 0x04000000 /\ VersionMajor (Header r) = 0x0200 /\
      Header r <> example_header 0xd4c3b2a1).
Proof.
  split; eexists _, _.
  - split; [vm_compute; reflexivity|]. split; [vm_compute; reflexivity|].
    split; [reflexivity|]. cbv. intros H. discriminate H.
  - split; [vm_compute; reflexivity|]. split; [vm_compute; reflexivity|].
    split; [reflexivity|]. split; [reflexivity|].
    cbv. intros H. discriminate H.
Qed.

(** C2. When the first four bytes of the stream decode to 0xa1b2c3d4 or
    0xa1b23c4d, NewReader returns a Reader with flip = false and a nil
    error; when they decode to 0xd4c3b2a1 or 0x4d3cb2a1, a Reader with
    flip = true and a nil error; when they decode to any other value, no
    Reader and the bad-magic error of that value. *)
Theorem NewReader_magic (s : stream) (m : Z) :
  stream_magic s = Some m ->
  (native_magic m ->
   exists r, NewReader s = (Some r, None) /\ flip r = false) /\
  (swapped_magic m ->
   exists r, NewReader s = (Some r, None) /\ flip r = true) /\
  (~ accepted_magic m -> NewReader s = (None, Some (bad_magic m))).
Proof.
  intros Hm. pose proof (NewReader_cases s) as Hcases. cbv zeta in Hcases.
  rewrite readUint32_stream_magic, Hm in Hcases.
  destruct Hcases as [(Hn & r & Hrun & Hf & _)|[(Hs & r & Hrun & Hf & _)|(Hno & Hrun)]].
  - split; [intros _; exists r; auto|].
    split; [intros Hs; destruct (magic_classes_disjoint m Hn Hs)|].
    intros Hno. destruct Hno. left. exact Hn.
  - split; [intros Hn; destruct (magic_classes_disjoint m Hn Hs)|].
    split; [intros _; exists r; auto|].
    intros Hno. destruct Hno. right. exact Hs.
  - split; [intros Hn; destruct Hno; left; exact Hn|].
    split; [intros Hs; destruct Hno; right; exact Hs|].
    intros _. exact Hrun.
Qed.

(** A capture stored in the other byte order is accepted with flip set. *)
Lemma NewReader_magic_example :
  exists r,
    NewReader (of_bytes swapped_header_bytes) = (Some r, None) /\ flip r = true.
Proof.
  refine (proj1 (proj2 (NewReader_magic (of_bytes swapped_header_bytes)
                          0xd4c3b2a1 _)) _).
  - vm_compute. reflexivity.
  - left. reflexivity.
Defined.

(** C3 fails on the code. On a stream that ends right after an accepted
    magic value every one of the six field reads is short, and NewReader
    still returns a Reader and a nil error: the header it stores is all
    zeros and the short read is only left in the Reader's err field. *)
Theorem NewReader_short_header_is_accepted :
  exists r,
    NewReader (of_bytes [xd4; xc3; xb2; xa1]) = (Some r, None) /\
    err r = Some io_EOF /\
    Header r = mkFileHeader 0xa1b23c4d 0 0 0 0 0 0.
Proof. eexists. split; [vm_compute; reflexivity|]. split; reflexivity. Qed.

(** C10. The header of every Reader that NewReader returns has
    MagicNumber 0xa1b23c4d. The magic value of the stream is one of the
    four accepted ones and decides flip: true exactly for the two
    swapped values. *)
Theorem NewReader_stored_magic (s : stream) (r : Reader) (e : option error) :
  NewReader s = (Some r, e) ->
  MagicNumber (Header r) = 0xa1b23c4d /\
  exists m, stream_magic s = Some m /\ accepted_magic m /\
            (flip r = true <-> swapped_magic m).
Proof.
  intros Hrun. pose proof (NewReader_cases s) as Hcases. cbv zeta in Hcases.
  rewrite readUint32_stream_magic in Hcases.
  assert (Hsome : forall m0, accepted_magic
            match stream_magic s with Some m => m | None => 0 end ->
            m0 = match stream_magic s with Some m => m | None => 0 end ->
            stream_magic s = Some m0).
  { intros m0 Hacc ->. destruct (stream_magic s); [reflexivity|].
    destruct (zero_not_accepted Hacc). }
  destruct Hcases as [(Hn & r1 & Hrun1 & Hf & Hmag & _)
                     |[(Hs & r1 & Hrun1 & Hf & Hmag & _)|(_ & Hrun1)]];
    rewrite Hrun1 in Hrun; inversion Hrun; subst.
  - split; [exact Hmag|]. eexists. split; [apply Hsome; [left; exact Hn|reflexivity]|].
    split; [left; exact Hn|]. rewrite Hf. split; [discriminate|].
    intros Hs. destruct (magic_classes_disjoint _ Hn Hs).
  - split; [exact Hmag|]. eexists. split; [apply Hsome; [right; exact Hs|reflexivity]|].
    split; [right; exact Hs|]. rewrite Hf. split; auto.
Qed.

(** The stored magic of the example Reader. *)
Lemma NewReader_stored_magic_example :
  MagicNumber (Header example_Reader) = 0xa1b23c4d /\
  exists m,
    stream_magic (of_bytes (file_bytes (example_header 0xa1b23c4d) [example_packet]))
      = Some m /\
    accepted_magic m /\ (flip example_Reader = true <-> swapped_magic m).
Proof.
  apply (NewReader_stored_magic
           (of_bytes (file_bytes (example_header 0xa1b23c4d) [example_packet]))
           example_Reader None).
  vm_compute. reflexivity.
Defined.

(** C4, as amended. When the read of the next record header yields zero
    bytes and io.EOF, Next returns nil and stores io.EOF in the Reader's
    err field; it takes no buffer from the pool and changes nothing else
    of the Reader but the stream. *)
Theorem Next_at_record_boundary (r : Reader) (s' : stream) :
  length (sixteenBytes r) = 16%nat ->
  Read (buf r) 16 = ([], Some io_EOF, s') ->
  Next r = (None, set_err (Some io_EOF) (set_buf s' r)).
Proof.
  intros H16 HR. rewrite Next_unfold. unfold read.
  rewrite H16, HR. cbn [length read_loop is_nil andb].
  rewrite copy_at_nil. cbn.
  destruct r; reflexivity.
Qed.

(** The example Reader after its only record. *)
Lemma Next_at_record_boundary_example :
  Next (snd (Next example_Reader)) =
  (None, set_err (Some io_EOF) (set_buf [] (snd (Next example_Reader)))).
Proof.
  apply (Next_at_record_boundary (snd (Next example_Reader)) []).
  - vm_compute. reflexivity.
  - vm_compute. reflexivity.
Defined.

(** C4, as stated, fails: after the only record of the example file the
    stream is at a record boundary, the read of the next header yields
    zero bytes and io.EOF, and Next returns nil with io.EOF stored in
    err, not with no error. *)
Lemma end_of_stream_stores_EOF :
  exists q r1 r2,
    Next example_Reader = (Some q, r1) /\
    Read (buf r1) 16 = ([], Some io_EOF, []) /\
    Next r1 = (None, r2) /\
    err r2 = Some io_EOF /\ err r2 <> None.
Proof.
  eexists _, _, _. split; [vm_compute; reflexivity|].
  split; [reflexivity|]. split; [vm_compute; reflexivity|].
  split; [reflexivity|]. cbn. discriminate.
Qed.

(** C5, as amended. A call of Next returns a record exactly when it
    leaves no error in the Reader; an error of the read of the record
    header or of the payload is stored in err and no record is returned.
    Next does not look at the stored error: the next call reads the
    stream again. On a stream that reports no error before its end a
    call that returned no record is followed only by calls that return
    no record and store io.EOF. *)
Theorem Next_failure (r : Reader) :
  Reader_wf r ->
  (fst (Next r) = None <-> err (snd (Next r)) <> None) /\
  (forall d e r1,
      read (sixteenBytes r) r = ((d, Some e), r1) ->
      fst (Next r) = None /\ err (snd (Next r)) = Some e) /\
  (forall d r1 pd r2 data e r3,
      read (sixteenBytes r) r = ((d, None), r1) ->
      DataPool_Get (set_err None (set_sixteenBytes d r1)) = (pd, r2) ->
      read (Data pd) r2 = ((data, Some e), r3) ->
      fst (Next r) = None /\ err (snd (Next r)) = Some e) /\
  (clean (buf r) -> fst (Next r) = None ->
   forall n,
     fst (Next (snd (Next_n n (snd (Next r))))) = None /\
     err (snd (Next (snd (Next_n n (snd (Next r)))))) = Some io_EOF).
Proof.
  intros (_ & _ & H16 & _).
  split; [|split; [|split]].
  - rewrite Next_unfold.
    destruct (read (sixteenBytes r) r) as [[d e] r1].
    destruct e as [e|]; [cbn; split; [discriminate|reflexivity]|].
    cbv zeta. match goal with |- context [DataPool_Get ?x] =>
      destruct (DataPool_Get x) as [pd r3] end.
    destruct (read (Data pd) r3) as [[data e'] r4].
    destruct e'; cbn; split; congruence.
  - intros d e r1 Hrun. rewrite Next_unfold, Hrun. cbn. auto.
  - intros d r1 pd r2 data e r3 Hrun HG Hrun2.
    rewrite Next_unfold, Hrun. cbv zeta. rewrite HG, Hrun2. cbn. auto.
  - intros Hc Hfail n.
    destruct (Next_fail_clean r H16 Hc Hfail) as [Hex _].
    destruct (Next_exhausted _ (Next_n_exhausted n _ Hex)) as (Hn & He & _).
    auto.
Qed.

(** The third call after the failed one on the truncated file. *)
Lemma Next_failure_example :
  fst (Next (snd (Next_n 2 (snd (Next truncated_Reader))))) = None /\
  err (snd (Next (snd (Next_n 2 (snd (Next truncated_Reader)))))) = Some io_EOF.
Proof.
  refine (proj2 (proj2 (proj2 (Next_failure truncated_Reader _))) _ _ 2%nat).
  - vm_compute. repeat split; repeat constructor.
  - vm_compute. repeat constructor.
  - vm_compute. reflexivity.
Defined.

(** C5, as stated, fails: on a stream that reports a timeout once, the
    call that meets the timeout returns nil and stores the error, and the
    call after it returns the record and stores nil. *)
Lemma stalled_read_is_not_fatal :
  exists r r1 q r2,
    NewReader stalled_stream = (Some r, None) /\
    Next r = (None, r1) /\ err r1 = Some (io_error "i/o timeout") /\
    Next r1 = (Some q, r2) /\ err r2 = None /\
    record_tuple q = record_tuple example_packet.
Proof.
  eexists _, _, _, _. split; [vm_compute; reflexivity|].
  split; [vm_compute; reflexivity|]. split; [reflexivity|].
  split; [vm_compute; reflexivity|]. split; reflexivity.
Qed.

(** C6, as amended. The timestamp of every record that Next returns is
    time.Unix of the record's seconds field and its fraction field: the
    seconds plus the fraction taken as nanoseconds, whatever the magic
    value of the file was. *)
Theorem Next_timestamp (r : Reader) (q : Packet) (r' : Reader) :
  Reader_wf r -> Next r = (Some q, r') ->
  Time q = time.Unix
             (asUint32 (slice (firstn 16 (stream_bytes (buf r))) 0 4) (flip r))
             (asUint32 (slice (firstn 16 (stream_bytes (buf r))) 4 8) (flip r)) /\
  time.nanos (Time q) =
    asUint32 (slice (firstn 16 (stream_bytes (buf r))) 0 4) (flip r) * 1000000000
    + asUint32 (slice (firstn 16 (stream_bytes (buf r))) 4 8) (flip r) /\
  time.wf (Time q).
Proof.
  intros (_ & _ & H16 & _). rewrite Next_unfold.
  destruct (read (sixteenBytes r) r) as [[d e] r1] eqn:Hrun1.
  destruct e; [discriminate|].
  destruct (read_ok _ _ _ _ Hrun1) as (Hd & _). rewrite H16 in Hd.
  cbv zeta. match goal with |- context [DataPool_Get ?x] =>
      destruct (DataPool_Get x) as [pd r3] end.
  destruct (read (Data pd) r3) as [[data e'] r4].
  destruct e'; [discriminate|]. intros H. inversion H; subst q r'. clear H.
  cbn [Time]. rewrite <- Hd.
  split; [reflexivity|]. apply Unix_nanos; apply asUint32_range.
Qed.

(** The timestamp of the record of the example file. *)
Lemma Next_timestamp_example :
  Time example_packet =
    time.Unix
      (asUint32 (slice (firstn 16 (stream_bytes (buf example_Reader))) 0 4)
                (flip example_Reader))
      (asUint32 (slice (firstn 16 (stream_bytes (buf example_Reader))) 4 8)
                (flip example_Reader)) /\
  time.nanos (Time example_packet) =
    asUint32 (slice (firstn 16 (stream_bytes (buf example_Reader))) 0 4)
             (flip example_Reader) * 1000000000
    + asUint32 (slice (firstn 16 (stream_bytes (buf example_Reader))) 4 8)
               (flip example_Reader) /\
  time.wf (Time example_packet).
Proof.
  apply (Next_timestamp example_Reader example_packet
                        (snd (Next example_Reader))).
  - vm_compute. repeat split; repeat constructor.
  - vm_compute. reflexivity.
Defined.

(** C6, as stated, fails: in a file with the microsecond magic
    0xa1b2c3d4 a record with seconds 1 and fraction 500000 is 1.5 s after
    the epoch, and Next returns 1 s and 500000 ns. *)
Lemma microsecond_fraction_read_as_nanoseconds :
  exists r q r',
    NewReader (of_bytes (file_bytes (example_header 0xa1b2c3d4) [example_packet]))
      = (Some r, None) /\
    asUint32 (slice (firstn 16 (stream_bytes (buf r))) 0 4) (flip r) = 1 /\
    asUint32 (slice (firstn 16 (stream_bytes (buf r))) 4 8) (flip r) = 500000 /\
    Next r = (Some q, r') /\
    time.nanos (Time q) = 1 * 1000000000 + 500000 /\
    time.nanos (Time q) <> 1 * 1000000000 + 500000 * 1000.
Proof.
  eexists _, _, _. split; [vm_compute; reflexivity|].
  split; [vm_compute; reflexivity|]. split; [vm_compute; reflexivity|].
  split; [vm_compute; reflexivity|]. split; [reflexivity|].
  cbv. discriminate.
Qed.

(** C7. Every record that Next returns took the 16 bytes of its header
    and then exactly SnapLen bytes off the stream, and its payload is
    those SnapLen bytes, whatever the captured length says; on a stream
    without errors that holds 16 + SnapLen more bytes Next returns such a
    record. Every packet that the Writer writes without error adds the 16
    bytes of the record header and then the whole payload buffer to the
    sink, and a sink that accepts its writes makes the write succeed. *)
Theorem fixed_size_payload (r : Reader) (w : Writer) (p : Packet) :
  Reader_wf r -> length (w_buf w) = 24%nat ->
  (forall q r',
      Next r = (Some q, r') ->
      length (pkt_Data q) = Z.to_nat (SnapLen (Header r)) /\
      length (sixteenBytes r') = 16%nat /\
      stream_bytes (buf r) =
        sixteenBytes r' ++ pkt_Data q ++ stream_bytes (buf r')) /\
  (clean (buf r) ->
   (16 + Z.to_nat (SnapLen (Header r)) <= length (stream_bytes (buf r)))%nat ->
   exists q r',
     Next r = (Some q, r') /\
     pkt_Data q = firstn (Z.to_nat (SnapLen (Header r)))
                         (skipn 16 (stream_bytes (buf r)))) /\
  (forall w',
      Writer_Write w p = (None, w') ->
      written (writer w') =
        written (writer w) ++ record_header p ++ pkt_Data p) /\
  (faults (writer w) = [] -> fst (Writer_Write w p) = None).
Proof.
  intros Hwf H24. pose proof Hwf as (_ & _ & H16 & Hpool).
  split; [|split; [|split]].
  - intros q r'. rewrite Next_unfold.
    destruct (read (sixteenBytes r) r) as [[d e] r1] eqn:Hrun1.
    destruct e as [e|]; [discriminate|].
    destruct (read_ok _ _ _ _ Hrun1) as (_ & Hb1 & Ld & Hr1 & _).
    cbv zeta.
    match goal with |- context [DataPool_Get ?x] =>
      destruct (DataPool_Get_spec x) as (pd & r3 & HG & Lpd & Hr3 & _) end.
    { rewrite Hr1. exact Hpool. }
    rewrite HG.
    destruct (read (Data pd) r3) as [[data e'] r4] eqn:Hrun2.
    destruct e' as [e'|]; [discriminate|].
    destruct (read_ok _ _ _ _ Hrun2) as (_ & Hb2 & Ldata & Hr4 & _).
    intros H. inversion H; subst q r'. clear H. cbn [pkt_Data].
    assert (Hbuf3 : buf r3 = buf r1) by (rewrite Hr3; reflexivity).
    assert (H16' : sixteenBytes (set_err None r4) = d)
      by (rewrite Hr4, Hr3; reflexivity).
    rewrite H16'. rewrite Hbuf3 in Hb2.
    split; [|split].
    + rewrite Ldata, Lpd, Hr1. reflexivity.
    + lia.
    + rewrite Hb1, Hb2. reflexivity.
  - intros Hc Hlen.
    destruct (Next_clean r (firstn 16 (stream_bytes (buf r)))
                (firstn (Z.to_nat (SnapLen (Header r)))
                        (skipn 16 (stream_bytes (buf r))))
                (skipn (Z.to_nat (SnapLen (Header r)))
                       (skipn 16 (stream_bytes (buf r)))) Hwf Hc)
      as (r' & Hrun & _).
    + rewrite !firstn_skipn. reflexivity.
    + rewrite length_firstn. lia.
    + rewrite length_firstn, length_skipn. lia.
    + eexists _, r'. split; [exact Hrun|reflexivity].
  - intros w'. rewrite Writer_Write_unfold by exact H24. cbv zeta.
    destruct (Write (writer w) (record_header p)) as [[n1 e1] k1] eqn:HW1.
    destruct e1 as [e1|]; [discriminate|].
    destruct (Write k1 (pkt_Data p)) as [[n2 e2] k2] eqn:HW2.
    intros H. inversion H; subst. cbn [writer].
    rewrite (Write_nil _ _ _ _ HW2), (Write_nil _ _ _ _ HW1).
    symmetry. apply app_assoc.
  - intros Hf. rewrite Writer_Write_unfold by exact H24. cbv zeta.
    rewrite Write_accepts by exact Hf. rewrite Write_accepts by reflexivity.
    reflexivity.
Qed.

(** The example Writer puts the whole payload after the record header. *)
Lemma fixed_size_payload_example :
  written (writer (snd (Writer_Write example_Writer example_packet))) =
  written (writer example_Writer) ++ record_header example_packet
    ++ pkt_Data example_packet.
Proof.
  refine (proj1 (proj2 (proj2 (fixed_size_payload example_Reader example_Writer
                                 example_packet _ _))) _ _).
  - vm_compute. repeat split; repeat constructor.
  - reflexivity.
  - vm_compute. reflexivity.
Defined.

(** C8. NewWriter hands the sink, in one write, the 24 bytes
    magic(4) | version_major(2) | version_minor(2) | tz_offset(4) |
    sig_figs(4) | snaplen(4) | linktype(4), every field little-endian
    whatever the magic value is. It returns the error of that write, and
    a Writer exactly when the error is nil; the sink then holds the 24
    bytes after what it held before. *)
Theorem NewWriter_layout (k : sink) (h : FileHeader) :
  FileHeader_wf h ->
  length (header_bytes h) = 24%nat /\
  (binary.LittleEndian_Uint32 (slice (header_bytes h) 0 4) = MagicNumber h /\
   binary.LittleEndian_Uint16 (slice (header_bytes h) 4 6) = VersionMajor h /\
   binary.LittleEndian_Uint16 (slice (header_bytes h) 6 8) = VersionMinor h /\
   int32 (binary.LittleEndian_Uint32 (slice (header_bytes h) 8 12)) = TimeZone h /\
   binary.LittleEndian_Uint32 (slice (header_bytes h) 12 16) = SigFigs h /\
   binary.LittleEndian_Uint32 (slice (header_bytes h) 16 20) = SnapLen h /\
   binary.LittleEndian_Uint32 (slice (header_bytes h) 20 24) = LinkType h) /\
  exists n e k',
    Write k (header_bytes h) = (n, e, k') /\
    NewWriter k h =
      (match e with
       | None => Some (mkWriter k' (header_bytes h))
       | Some _ => None
       end, e, k') /\
    (fst (fst (NewWriter k h)) = None <-> e <> None) /\
    (e = None -> written k' = written k ++ header_bytes h).
Proof.
  intros (Hmag & Hmaj & Hmin & Htz & Hsig & Hsnap & Hlink).
  split; [reflexivity|]. split.
  - split; [exact (Uint32_le32_exact _ Hmag)|].
    split; [exact (Uint16_le16_exact _ Hmaj)|].
    split; [exact (Uint16_le16_exact _ Hmin)|].
    split.
    { change (slice (header_bytes h) 8 12) with (le32 (uint32 (TimeZone h))).
      rewrite Uint32_le32_exact by apply uint32_range.
      apply int32_uint32, Htz. }
    split; [exact (Uint32_le32_exact _ Hsig)|].
    split; [exact (Uint32_le32_exact _ Hsnap)|].
    exact (Uint32_le32_exact _ Hlink).
  - rewrite NewWriter_unfold.
    destruct (Write k (header_bytes h)) as [[n e] k'] eqn:HW.
    exists n, e, k'. split; [reflexivity|].
    destruct e as [e|]; cbn.
    + split; [reflexivity|]. split; [split; [discriminate|reflexivity]|].
      discriminate.
    + split; [reflexivity|]. split; [split; [discriminate|congruence]|].
      intros _. exact (Write_nil _ _ _ _ HW).
Qed.

(** The layout of a header with a swapped magic value is little-endian
    too. *)
Lemma NewWriter_layout_example :
  length (header_bytes (example_header 0xd4c3b2a1)) = 24%nat /\
  (binary.LittleEndian_Uint32 (slice (header_bytes (example_header 0xd4c3b2a1)) 0 4)
     = MagicNumber (example_header 0xd4c3b2a1) /\
   binary.LittleEndian_Uint16 (slice (header_bytes (example_header 0xd4c3b2a1)) 4 6)
     = VersionMajor (example_header 0xd4c3b2a1) /\
   binary.LittleEndian_Uint16 (slice (header_bytes (example_header 0xd4c3b2a1)) 6 8)
     = VersionMinor (example_header 0xd4c3b2a1) /\
   int32 (binary.LittleEndian_Uint32 (slice (header_bytes (example_header 0xd4c3b2a1)) 8 12))
     = TimeZone (example_header 0xd4c3b2a1) /\
   binary.LittleEndian_Uint32 (slice (header_bytes (example_header 0xd4c3b2a1)) 12 16)
     = SigFigs (example_header 0xd4c3b2a1) /\
   binary.LittleEndian_Uint32 (slice (header_bytes (example_header 0xd4c3b2a1)) 16 20)
     = SnapLen (example_header 0xd4c3b2a1) /\
   binary.LittleEndian_Uint32 (slice (header_bytes (example_header 0xd4c3b2a1)) 20 24)
     = LinkType (example_header 0xd4c3b2a1)) /\
  exists n e k',
    Write new_Buffer (header_bytes (example_header 0xd4c3b2a1)) = (n, e, k') /\
    NewWriter new_Buffer (example_header 0xd4c3b2a1) =
      (match e with
       | None => Some (mkWriter k' (header_bytes (example_header 0xd4c3b2a1)))
       | Some _ => None
       end, e, k') /\
    (fst (fst (NewWriter new_Buffer (example_header 0xd4c3b2a1))) = None <-> e <> None) /\
    (e = None ->
     written k' = written new_Buffer ++ header_bytes (example_header 0xd4c3b2a1)).
Proof.
  apply (NewWriter_layout new_Buffer (example_header 0xd4c3b2a1)).
  repeat split; cbv; congruence.
Defined.

(** [Count++] changes [Count], also when it wraps. *)
Lemma int64_succ_neq (c : Z) : int64 (c + 1) <> c.
Proof.
  unfold int64. change (2 ^ 63) with 9223372036854775808.
  change (2 ^ 64) with 18446744073709551616.
  Z.div_mod_to_equations. lia.
Qed.


(* ================================================================== *)
(** * Further properties of the code *)

(* ================================================================== *)
(** * Both byte orders *)

Lemma BigEndian_Uint16_sum (b0 b1 : byte) (rest : list byte) :
  binary.BigEndian_Uint16 (b0 :: b1 :: rest) =
  byte_val b1 + byte_val b0 * 2 ^ 8.
Proof.
  unfold binary.BigEndian_Uint16, binary.at_; cbn [nth].
  pose proof (byte_val_range b1).
  apply lor_shiftl_add; lia.
Qed.

Lemma Uint32_be32_exact (v : Z) :
  is_uint32 v -> binary.BigEndian_Uint32 (be32 v) = v.
Proof.
  unfold is_uint32, be32. intros Hv.
  rewrite BigEndian_Uint32_sum, !byte_val_to_byte.
  rewrite !Z.shiftr_div_pow2 by lia.
  change (2 ^ 8) with 256 in *. change (2 ^ 16) with 65536 in *.
  change (2 ^ 24) with 16777216 in *. change (2 ^ 32) with 4294967296 in *.
  Z.div_mod_to_equations. lia.
Qed.

Lemma Uint16_be16_exact (v : Z) :
  is_uint16 v -> binary.BigEndian_Uint16 (be16 v) = v.
Proof.
  unfold is_uint16, be16. intros Hv.
  rewrite BigEndian_Uint16_sum, !byte_val_to_byte.
  rewrite Z.shiftr_div_pow2 by lia.
  change (2 ^ 8) with 256 in *. change (2 ^ 16) with 65536 in *.
  Z.div_mod_to_equations. lia.
Qed.

Lemma asUint32_field32 (f : bool) (v : Z) :
  is_uint32 v -> asUint32 (field32 f v) f = v.
Proof.
  intros Hv. destruct f; cbn [asUint32 field32].
  - apply Uint32_be32_exact, Hv.
  - apply Uint32_le32_exact, Hv.
Qed.

Lemma length_field32 (f : bool) (v : Z) : length (field32 f v) = 4%nat.
Proof. destruct f; reflexivity. Qed.

(** Four 4-byte fields, cut out of their concatenation. *)
Lemma slice_four (a b c d : list byte) :
  length a = 4%nat -> length b = 4%nat -> length c = 4%nat ->
  length d = 4%nat ->
  slice (a ++ b ++ c ++ d) 0 4 = a /\ slice (a ++ b ++ c ++ d) 4 8 = b /\
  slice (a ++ b ++ c ++ d) 8 12 = c /\ slice (a ++ b ++ c ++ d) 12 16 = d.
Proof.
  intros Ha Hb Hc Hd.
  destruct a as [|a0 [|a1 [|a2 [|a3 [|]]]]]; try discriminate.
  destruct b as [|b0 [|b1 [|b2 [|b3 [|]]]]]; try discriminate.
  destruct c as [|c0 [|c1 [|c2 [|c3 [|]]]]]; try discriminate.
  destruct d as [|d0 [|d1 [|d2 [|d3 [|]]]]]; try discriminate.
  repeat split.
Qed.

(** Reading a record laid out in the Reader's byte order: the fields
    come back, the seconds as the 32 bits that were stored. *)
Lemma Next_layout (r : Reader) (p : Packet) (rest : list byte) :
  Reader_wf r -> clean (buf r) ->
  stream_bytes (buf r) = record_layout (flip r) p ++ rest ->
  Packet_for (Header r) p ->
  exists q r',
    Next r = (Some q, r') /\ record_tuple q = wrapped_tuple p /\
    pkt_PacketData q = mkPacketData (pkt_Data p) /\
    Reader_wf r' /\ clean (buf r') /\ flip r' = flip r /\
    Header r' = Header r /\ stream_bytes (buf r') = rest /\
    (DataPool r = [] /\ DataPool r' = [] /\ Count r' = int64 (Count r + 1)
     \/ (exists pd, DataPool r = pd :: DataPool r') /\ Count r' = Count r).
Proof.
  intros Hwf Hc Hb (Hcap & Hlen & (Hsec & Hnsec) & Hdata).
  unfold record_layout in Hb. rewrite <- app_assoc in Hb.
  destruct (Next_clean r _ _ _ Hwf Hc Hb) as
    (r' & Hrun & Hc' & Hb' & Hwf' & Hf' & Hh' & _ & _ & Hpool).
  { rewrite !length_app, !length_field32. reflexivity. }
  { exact Hdata. }
  eexists _, r'. split; [exact Hrun|].
  split; [|split; [reflexivity|auto 10]].
  unfold record_tuple, wrapped_tuple; cbn [Time Caplen Len pkt_Data].
  destruct (slice_four (field32 (flip r) (uint32 (time.Time_Unix (Time p))))
              (field32 (flip r) (uint32 (time.Time_Nanosecond (Time p))))
              (field32 (flip r) (Caplen p)) (field32 (flip r) (Len p)))
    as (-> & -> & -> & ->); try apply length_field32.
  rewrite !asUint32_field32 by (try apply uint32_range; assumption).
  unfold time.Time_Unix, time.Time_Nanosecond.
  rewrite (uint32_small (time.nsec (Time p)))
    by (unfold is_uint32; change (2 ^ 32) with 4294967296; lia).
  rewrite Unix_in_range by exact Hnsec. reflexivity.
Qed.

Lemma Next_n_layout (pkts : list Packet) :
  forall (r : Reader) (rest : list byte),
    Reader_wf r -> clean (buf r) ->
    stream_bytes (buf r) = flat_map (record_layout (flip r)) pkts ++ rest ->
    Forall (Packet_for (Header r)) pkts ->
    exists qs r',
      Next_n (length pkts) r = (map Some qs, r') /\
      map record_tuple qs = map wrapped_tuple pkts /\
      Reader_wf r' /\ clean (buf r') /\ flip r' = flip r /\
      Header r' = Header r /\ stream_bytes (buf r') = rest.
Proof.
  induction pkts as [|p pkts IH]; intros r rest Hwf Hc Hb Hfor.
  - exists [], r. cbn in *. auto 10.
  - inversion Hfor as [|? ? Hp Hfor']; subst.
    cbn [flat_map] in Hb. rewrite <- app_assoc in Hb.
    destruct (Next_layout r p _ Hwf Hc Hb Hp)
      as (q & r1 & Hrun & Htup & _ & Hwf1 & Hc1 & Hf1 & Hh1 & Hb1 & _).
    rewrite <- Hh1 in Hfor'. rewrite <- Hf1 in Hb1.
    destruct (IH r1 rest Hwf1 Hc1 Hb1 Hfor')
      as (qs & r' & Hrun' & Htups & Hwf' & Hc' & Hf' & Hh' & Hb').
    exists (q :: qs), r'.
    cbn [length Next_n]. unfold bind at 1. rewrite Hrun.
    unfold bind at 1. rewrite Hrun'. unfold ret.
    cbn [map]. rewrite Htup, Htups, Hh', Hh1, Hf', Hf1. auto 10.
Qed.

Lemma wrapped_tuple_fits (p : Packet) :
  fits_seconds p -> wrapped_tuple p = record_tuple p.
Proof.
  unfold fits_seconds, wrapped_tuple, record_tuple. intros H.
  rewrite uint32_small by exact H. destruct (Time p). reflexivity.
Qed.

(* ================================================================== *)
(** * Further properties of [read] *)

(** X1. [read] moves a prefix of the stream's bytes to the front of the
    buffer and leaves the rest of the buffer as it was; it takes no byte
    off the stream that it does not put in the buffer, returns nil
    exactly when the buffer is full, and changes nothing of the Reader
    but the stream. *)
Theorem read_moves_a_prefix (data : list byte) (r : Reader) :
  exists c,
    fst (fst (read data r)) = c ++ skipn (length c) data /\
    stream_bytes (buf r) = c ++ stream_bytes (buf (snd (read data r))) /\
    (length c <= length data)%nat /\
    (snd (fst (read data r)) = None <-> length c = length data) /\
    snd (read data r) = set_buf (buf (snd (read data r))) r.
Proof.
  destruct (read_spec data r) as (c & e & s' & Hrun & Hb & Hle & Hok & _).
  exists c. rewrite Hrun. cbn [fst snd]. auto.
Qed.

(** While the buffer is not full the loop of [read] takes the chunks of
    an error-free stretch of the script whole. *)
Lemma read_loop_through (pre : stream) :
  forall (fuel : nat) (tail : stream) (data : list byte) (n : nat),
    clean pre ->
    (n + length (stream_bytes pre) < length data)%nat ->
    read_loop (length pre + fuel) (pre ++ tail) data n None =
    read_loop fuel tail (copy_at data n (stream_bytes pre))
              (n + length (stream_bytes pre)) None.
Proof.
  induction pre as [|[bs eb] pre IH]; intros fuel tail data n Hc Hn.
  - cbn [app length stream_bytes flat_map Nat.add].
    rewrite copy_at_nil, Nat.add_0_r. reflexivity.
  - inversion Hc as [|? ? He Hc']; subst. cbn [snd] in He. subst eb.
    unfold stream_bytes in *. cbn [flat_map fst] in *.
    rewrite length_app in Hn.
    cbn [length app Nat.add read_loop is_nil andb].
    replace (n =? length data)%nat with false
      by (symmetry; apply Nat.eqb_neq; lia).
    cbn [negb Read].
    replace (length data - n <? length bs)%nat with false
      by (symmetry; apply Nat.ltb_ge; lia).
    rewrite IH by (try assumption; rewrite length_copy_at by lia; lia).
    unfold stream_bytes. rewrite copy_at_app by lia.
    rewrite length_app, Nat.add_assoc. reflexivity.
Qed.

(** X2. An error that the stream reports together with the bytes that
    fill the buffer is dropped: [read] returns nil, the buffer holds the
    bytes, and the stream is past the error. *)
Theorem read_ignores_error_with_last_bytes (r : Reader) (data : list byte)
    (pre : stream) (bs : list byte) (e : error) (rest : stream) :
  buf r = pre ++ (bs, Some e) :: rest -> clean pre -> bs <> [] ->
  (length (stream_bytes pre) + length bs)%nat = length data ->
  read data r = ((stream_bytes pre ++ bs, None), set_buf rest r).
Proof.
  intros Hbuf Hc Hbs Hlen.
  assert (Lbs : (0 < length bs)%nat) by (destruct bs; [contradiction|cbn; lia]).
  assert (Hlast : forall fuel n d,
    (n + length bs)%nat = length d ->
    read_loop (S fuel) ((bs, Some e) :: rest) d n None
    = Some (rest, copy_at d n bs, (n + length bs)%nat, Some e)).
  { intros fuel n d Hn. cbn [read_loop is_nil andb].
    replace (n =? length d)%nat with false
      by (symmetry; apply Nat.eqb_neq; lia).
    cbn [negb Read].
    replace (length d - n <? length bs)%nat with false
      by (symmetry; apply Nat.ltb_ge; lia).
    apply read_loop_done. reflexivity. }
  unfold read. rewrite Hbuf.
  destruct pre as [|[b0 e0] pre].
  - cbn [app Read stream_bytes flat_map length Nat.add] in *.
    replace (length data <? length bs)%nat with false
      by (symmetry; apply Nat.ltb_ge; lia).
    rewrite read_loop_done by reflexivity.
    rewrite Hlen, Nat.eqb_refl.
    unfold copy_at. cbn [firstn app Nat.add].
    rewrite skipn_all2, app_nil_r by lia. reflexivity.
  - inversion Hc as [|? ? He Hc']; subst. cbn [snd] in He. subst e0.
    unfold stream_bytes in *. cbn [flat_map fst app] in *.
    rewrite length_app in Hlen. cbn [Read].
    replace (length data <? length b0)%nat with false
      by (symmetry; apply Nat.ltb_ge; lia).
    rewrite length_app. cbn [length].
    replace (S (length pre + S (length rest)))
      with (length pre + S (S (length rest)))%nat by lia.
    assert (L0 : length (copy_at data 0 b0) = length data)
      by (apply length_copy_at; cbn; lia).
    rewrite read_loop_through
      by (try assumption; unfold stream_bytes; rewrite L0; lia).
    unfold stream_bytes.
    assert (L1 : length (copy_at (copy_at data 0 b0) (length b0)
                                 (flat_map fst pre)) = length data)
      by (rewrite length_copy_at; rewrite L0; lia).
    rewrite Hlast by (rewrite L1; lia).
    change (length b0) with (0 + length b0)%nat at 1 2.
    rewrite !copy_at_app by (rewrite ?L0; cbn; rewrite ?length_app; lia).
    cbn [Nat.add].
    replace (length data =? length b0 + length (flat_map fst pre) + length bs)%nat
      with true by (symmetry; apply Nat.eqb_eq; lia).
    unfold copy_at. cbn [firstn app Nat.add].
    rewrite skipn_all2, app_nil_r by (rewrite !length_app; lia).
    rewrite <- app_assoc. reflexivity.
Qed.

(** The last record of a capture arrives together with [io.EOF]. *)
Lemma read_ignores_error_with_last_bytes_example :
  read (make 4) (set_buf [(pkt_Data example_packet, Some io_EOF)] example_Reader)
  = ((stream_bytes [] ++ pkt_Data example_packet, None),
     set_buf [] (set_buf [(pkt_Data example_packet, Some io_EOF)] example_Reader)).
Proof.
  apply (read_ignores_error_with_last_bytes
           (set_buf [(pkt_Data example_packet, Some io_EOF)] example_Reader)
           (make 4) [] (pkt_Data example_packet) io_EOF []).
  - reflexivity.
  - constructor.
  - discriminate.
  - reflexivity.
Defined.

(* ================================================================== *)
(** * The byte-order helpers *)

Lemma to_byte_of_residue (x : Z) (b : byte) :
  x mod 256 = byte_val b -> to_byte x = b.
Proof.
  intros H. rewrite <- (to_byte_byte_val b), <- H.
  unfold to_byte. rewrite Z.mod_mod by lia. reflexivity.
Qed.

Lemma field32_asUint32 (f : bool) (d : list byte) :
  length d = 4%nat -> field32 f (asUint32 d f) = d.
Proof.
  intros H. destruct d as [|b0 [|b1 [|b2 [|b3 [|]]]]]; try discriminate.
  pose proof (byte_val_range b0). pose proof (byte_val_range b1).
  pose proof (byte_val_range b2). pose proof (byte_val_range b3).
  destruct f; cbn [asUint32 field32]; unfold be32, le32;
    rewrite ?BigEndian_Uint32_sum, ?LittleEndian_Uint32_sum;
    rewrite !Z.shiftr_div_pow2 by lia;
    change (2 ^ 8) with 256; change (2 ^ 16) with 65536;
    change (2 ^ 24) with 16777216;
    repeat f_equal; apply to_byte_of_residue;
    Z.div_mod_to_equations; lia.
Qed.

Lemma field16_asUint16 (f : bool) (d : list byte) :
  length d = 2%nat -> field16 f (asUint16 d f) = d.
Proof.
  intros H. destruct d as [|b0 [|b1 [|]]]; try discriminate.
  pose proof (byte_val_range b0). pose proof (byte_val_range b1).
  destruct f; cbn [asUint16 field16]; unfold be16, le16;
    rewrite ?BigEndian_Uint16_sum, ?LittleEndian_Uint16_sum;
    rewrite !Z.shiftr_div_pow2 by lia;
    change (2 ^ 8) with 256;
    repeat f_equal; apply to_byte_of_residue;
    Z.div_mod_to_equations; lia.
Qed.

(** X5. In either byte order the helpers [asUint32] and [asUint16] are
    the inverses of the field layouts: decoding a laid-out value gives
    the value, and laying out a decoded slice gives the slice, so two
    slices of a field's width decode to the same value only if they are
    equal. The other byte order decodes the reversed slice. *)
Theorem byte_order_round_trip (f : bool) (d4 d2 : list byte) (v32 v16 : Z) :
  length d4 = 4%nat -> length d2 = 2%nat ->
  is_uint32 v32 -> is_uint16 v16 ->
  asUint32 (field32 f v32) f = v32 /\ field32 f (asUint32 d4 f) = d4 /\
  asUint16 (field16 f v16) f = v16 /\ field16 f (asUint16 d2 f) = d2 /\
  asUint32 d4 (negb f) = asUint32 (rev d4) f /\
  asUint16 d2 (negb f) = asUint16 (rev d2) f /\
  is_uint32 (asUint32 d4 f) /\ is_uint16 (asUint16 d2 f).
Proof.
  intros H4 H2 Hv32 Hv16.
  split; [apply asUint32_field32, Hv32|].
  split; [apply field32_asUint32, H4|].
  split.
  { destruct f; cbn [asUint16 field16];
      [apply Uint16_be16_exact|apply Uint16_le16_exact]; exact Hv16. }
  split; [apply field16_asUint16, H2|].
  destruct d4 as [|a0 [|a1 [|a2 [|a3 [|]]]]]; try discriminate.
  destruct d2 as [|c0 [|c1 [|]]]; try discriminate.
  split; [destruct f; reflexivity|].
  split; [destruct f; reflexivity|].
  split; [apply asUint32_range|].
  pose proof (byte_val_range c0). pose proof (byte_val_range c1).
  unfold is_uint16. change (2 ^ 16) with 65536.
  destruct f; cbn [asUint16];
    rewrite ?BigEndian_Uint16_sum, ?LittleEndian_Uint16_sum;
    change (2 ^ 8) with 256; lia.
Qed.

(** The magic value of a microsecond capture, in the other byte order. *)
Lemma byte_order_round_trip_example :
  asUint32 (field32 true 0xa1b2c3d4) true = 0xa1b2c3d4 /\
  field32 true (asUint32 [xa1; xb2; xc3; xd4] true) = [xa1; xb2; xc3; xd4] /\
  asUint16 (field16 true 2) true = 2 /\
  field16 true (asUint16 [x00; x02] true) = [x00; x02] /\
  asUint32 [xa1; xb2; xc3; xd4] (negb true)
    = asUint32 (rev [xa1; xb2; xc3; xd4]) true /\
  asUint16 [x00; x02] (negb true) = asUint16 (rev [x00; x02]) true /\
  is_uint32 (asUint32 [xa1; xb2; xc3; xd4] true) /\
  is_uint16 (asUint16 [x00; x02] true).
Proof.
  apply (byte_order_round_trip true [xa1; xb2; xc3; xd4] [x00; x02]
                               0xa1b2c3d4 2).
  - reflexivity.
  - reflexivity.
  - cbv. split; congruence.
  - cbv. split; congruence.
Defined.

(* ================================================================== *)
(** * [NewReader] on a stream without a magic value *)

(** X6. When the stream cannot supply the four bytes of the magic value
    (it is empty, too short, or fails), [NewReader] returns no Reader and
    the bad-magic error of the value 0: the error of the read is not
    returned. *)
Theorem NewReader_without_magic (s : stream) :
  stream_magic s = None -> NewReader s = (None, Some (bad_magic 0)).
Proof.
  intros Hm. pose proof (NewReader_cases s) as Hcases. cbv zeta in Hcases.
  rewrite readUint32_stream_magic, Hm in Hcases.
  destruct Hcases as [(Hn & _)|[(Hs & _)|(_ & Hrun)]].
  - destruct zero_not_accepted. left. exact Hn.
  - destruct zero_not_accepted. right. exact Hs.
  - exact Hrun.
Qed.

(** A connection reset after one byte is reported as a bad magic
    number. *)
Lemma NewReader_without_magic_example :
  NewReader reset_stream = (None, Some (bad_magic 0)).
Proof.
  apply (NewReader_without_magic reset_stream). vm_compute. reflexivity.
Defined.

(* ================================================================== *)
(** * Further properties of the Writer *)

(** X10. Whatever the sink does, [Writer.Write] adds to it a prefix of
    the record (the 16-byte record header followed by the payload
    buffer) and nothing else; when it returns nil the prefix is the whole
    record. When the write of the record header fails, the payload is
    not handed to the sink and the error of that write is returned. The
    Writer keeps its 24-byte scratch buffer. *)
Theorem Writer_Write_writes_a_prefix (w : Writer) (p : Packet) :
  length (w_buf w) = 24%nat ->
  (exists pre suf,
      written (writer (snd (Writer_Write w p))) = written (writer w) ++ pre /\
      record_bytes p = pre ++ suf /\
      (fst (Writer_Write w p) = None -> suf = [])) /\
  (forall n e rest,
      faults (writer w) = Some (n, e) :: rest ->
      fst (Writer_Write w p) = Some e /\
      faults (writer (snd (Writer_Write w p))) = rest /\
      written (writer (snd (Writer_Write w p)))
        = written (writer w) ++ firstn n (record_header p)) /\
  length (w_buf (snd (Writer_Write w p))) = 24%nat.
Proof.
  intros H24. rewrite Writer_Write_unfold by exact H24. cbv zeta.
  assert (HW : forall k b,
    exists n e k' pre suf,
      Write k b = (n, e, k') /\ written k' = written k ++ pre /\
      b = pre ++ suf /\ (e = None -> suf = [])).
  { intros k b. unfold Write. destruct (faults k) as [|[[n e]|] rest].
    - eexists _, _, _, b, []. rewrite app_nil_r. auto.
    - eexists _, _, _, (firstn n b), (skipn n b).
      rewrite firstn_skipn. repeat split; try reflexivity. discriminate.
    - eexists _, _, _, b, []. rewrite app_nil_r. auto. }
  assert (L : length (record_header p ++ skipn 16 (w_buf w)) = 24%nat).
  { rewrite length_app, length_record_header, length_skipn. lia. }
  split; [|split].
  - destruct (HW (writer w) (record_header p))
      as (n1 & e1 & k1 & pre1 & suf1 & HW1 & Hw1 & Hb1 & Hs1).
    rewrite HW1. destruct e1 as [e1|].
    + exists pre1, (suf1 ++ pkt_Data p). cbn [fst snd writer].
      split; [exact Hw1|]. split; [|discriminate].
      unfold record_bytes. rewrite Hb1, app_assoc. reflexivity.
    + specialize (Hs1 eq_refl). subst suf1. rewrite app_nil_r in Hb1.
      destruct (HW k1 (pkt_Data p))
        as (n2 & e2 & k2 & pre2 & suf2 & HW2 & Hw2 & Hb2 & Hs2).
      rewrite HW2. exists (pre1 ++ pre2), suf2. cbn [fst snd writer].
      split; [rewrite Hw2, Hw1; symmetry; apply app_assoc|].
      split; [|exact Hs2].
      unfold record_bytes. rewrite Hb1, Hb2 at 1. apply app_assoc.
  - intros n e rest Hf.
    assert (HW1 : Write (writer w) (record_header p)
                  = (Nat.min n (length (record_header p)), Some e,
                     mkSink (written (writer w) ++ firstn n (record_header p)) rest))
      by (unfold Write; rewrite Hf; reflexivity).
    rewrite HW1. cbn. auto.
  - destruct (Write (writer w) (record_header p)) as [[n1 e1] k1].
    destruct e1; [exact L|].
    destruct (Write k1 (pkt_Data p)) as [[n2 e2] k2]. exact L.
Qed.

(** The disk fills two bytes into the first record. *)
Lemma Writer_Write_writes_a_prefix_example :
  fst (Writer_Write full_disk_Writer example_packet)
    = Some (io_error "no space left on device") /\
  faults (writer (snd (Writer_Write full_disk_Writer example_packet))) = [] /\
  written (writer (snd (Writer_Write full_disk_Writer example_packet)))
    = written (writer full_disk_Writer)
        ++ firstn 2 (record_header example_packet).
Proof.
  refine (proj1 (proj2 (Writer_Write_writes_a_prefix full_disk_Writer
                          example_packet _))
                2%nat (io_error "no space left on device") [] _).
  - reflexivity.
  - reflexivity.
Defined.

(** X11. Writing a header and any packets to a fresh in-memory buffer
    never fails, and the buffer then holds the 24 header bytes followed,
    for each packet in order, by its 16-byte record header and its whole
    payload buffer: 24 bytes plus 16 and the payload length per
    packet. *)
Theorem write_file_layout (h : FileHeader) (pkts : list Packet) :
  write_file h pkts = Some (file_bytes h pkts) /\
  length (file_bytes h pkts)
    = (24 + list_sum (map (fun p => 16 + length (pkt_Data p)) pkts))%nat.
Proof.
  split; [apply write_file_bytes|].
  unfold file_bytes. rewrite length_app.
  change (length (header_bytes h)) with 24%nat. f_equal.
  induction pkts as [|p pkts IH]; [reflexivity|].
  cbn [flat_map map list_sum]. rewrite length_app, IH.
  unfold record_bytes. rewrite length_app, length_record_header.
  reflexivity.
Qed.

(* ================================================================== *)
(** * Captures in the other byte order, and timestamps that do not fit *)

(** X4. A capture stored big-endian (the magic value 0xa1b2c3d4 or
    0xa1b23c4d and every field of the header and of the records in
    big-endian order) is read with flip set: the stored header has the
    fields of the capture's header, with MagicNumber 0xa1b23c4d, and the
    records come back with their timestamps, lengths and payloads. *)
Theorem Reader_reads_big_endian (h : FileHeader) (pkts : list Packet)
    (s : stream) :
  FileHeader_wf h -> native_magic (MagicNumber h) ->
  Forall (Packet_for h) pkts -> Forall fits_seconds pkts ->
  clean s ->
  stream_bytes s = header_bytes_be h ++ flat_map (record_layout true) pkts ->
  exists r qs r',
    NewReader s = (Some r, None) /\ flip r = true /\
    Header r = stored_header h /\
    Next_n (length pkts) r = (map Some qs, r') /\
    map record_tuple qs = map record_tuple pkts.
Proof.
  intros (Hmag & Hmaj & Hmin & Htz & Hsig & Hsnap & Hlink) Hnat Hfor Hfit Hc Hb.
  unfold header_bytes_be in Hb. rewrite <- !app_assoc in Hb.
  destruct (NewReader_clean s
              (binary.LittleEndian_Uint32 (be32 (MagicNumber h))) true
              _ _ _ _ _ _ _ _ Hc Hb)
    as (r & Hrun & Hf & Hh & _ & Hc' & Hb' & Hwf & _); try reflexivity.
  { right. split; [|reflexivity]. destruct Hnat as [-> | ->].
    - left. vm_compute. reflexivity.
    - right. vm_compute. reflexivity. }
  assert (Hstored : Header r = stored_header h).
  { rewrite Hh. unfold asUint16, asUint32, stored_header.
    rewrite !Uint32_be32_exact, !Uint16_be16_exact, int32_uint32
      by (try apply uint32_range; assumption).
    reflexivity. }
  rewrite <- (app_nil_r (flat_map (record_layout true) pkts)) in Hb'.
  rewrite <- Hf in Hb'.
  destruct (Next_n_layout pkts r [] Hwf Hc' Hb')
    as (qs & r' & Hrun' & Htup & _).
  { rewrite Hstored. exact Hfor. }
  exists r, qs, r'. repeat (split; [assumption|]).
  rewrite Htup. apply map_ext_in. intros p Hp.
  apply wrapped_tuple_fits. rewrite Forall_forall in Hfit. apply Hfit, Hp.
Qed.

(** The example capture, stored big-endian. *)
Lemma Reader_reads_big_endian_example :
  exists r qs r',
    NewReader (of_bytes big_endian_file) = (Some r, None) /\ flip r = true /\
    Header r = stored_header (example_header 0xa1b2c3d4) /\
    Next_n (length [example_packet]) r = (map Some qs, r') /\
    map record_tuple qs = map record_tuple [example_packet].
Proof.
  apply (Reader_reads_big_endian (example_header 0xa1b2c3d4) [example_packet]
           (of_bytes big_endian_file)).
  - ranges.
  - left. reflexivity.
  - repeat constructor; cbv; congruence.
  - repeat constructor; cbv; congruence.
  - repeat constructor.
  - vm_compute. reflexivity.
Defined.

(** X12. The Writer stores the seconds of a timestamp in 32 bits: a
    packet whose timestamp is before 1970 or after 2106 reads back with
    its seconds modulo 2^32; the nanoseconds, the lengths and the payload
    are kept. *)
Theorem Writer_stores_seconds_mod_2_32 (h : FileHeader) (pkts : list Packet)
    (s : stream) :
  FileHeader_wf h -> native_magic (MagicNumber h) ->
  Forall (Packet_for h) pkts -> clean s ->
  write_file h pkts = Some (stream_bytes s) ->
  exists r qs r',
    NewReader s = (Some r, None) /\
    Next_n (length pkts) r = (map Some qs, r') /\
    map record_tuple qs = map wrapped_tuple pkts.
Proof.
  intros (Hmag & Hmaj & Hmin & Htz & Hsig & Hsnap & Hlink) Hnat Hfor Hc Hw.
  rewrite write_file_bytes in Hw.
  assert (Hb : stream_bytes s = header_bytes h ++ flat_map record_bytes pkts)
    by congruence.
  clear Hw. unfold header_bytes in Hb. rewrite <- !app_assoc in Hb.
  destruct (NewReader_clean s (MagicNumber h) false _ _ _ _ _ _ _ _ Hc Hb)
    as (r & Hrun & Hf & Hh & _ & Hc' & Hb' & Hwf & _); try reflexivity.
  { apply Uint32_le32_exact, Hmag. }
  { left. auto. }
  assert (Hsnap' : SnapLen (Header r) = SnapLen h).
  { rewrite Hh. cbn [SnapLen]. unfold asUint32.
    apply Uint32_le32_exact, Hsnap. }
  change (flat_map record_bytes pkts)
    with (flat_map (record_layout false) pkts) in Hb'.
  rewrite <- (app_nil_r (flat_map (record_layout false) pkts)) in Hb'.
  rewrite <- Hf in Hb'.
  destruct (Next_n_layout pkts r [] Hwf Hc' Hb')
    as (qs & r' & Hrun' & Htup & _).
  { unfold Packet_for in *. rewrite Hsnap'. exact Hfor. }
  exists r, qs, r'. auto.
Qed.

(** A packet stamped one second before the epoch reads back as stamped
    in 2106. *)
Lemma Writer_stores_seconds_mod_2_32_example :
  exists r qs r',
    NewReader (of_bytes (file_bytes (example_header 0xa1b23c4d) [early_packet]))
      = (Some r, None) /\
    Next_n (length [early_packet]) r = (map Some qs, r') /\
    map record_tuple qs = map wrapped_tuple [early_packet].
Proof.
  apply (Writer_stores_seconds_mod_2_32 (example_header 0xa1b23c4d)
           [early_packet]
           (of_bytes (file_bytes (example_header 0xa1b23c4d) [early_packet]))).
  - ranges.
  - right. reflexivity.
  - repeat constructor; cbv; congruence.
  - repeat constructor.
  - vm_compute. reflexivity.
Defined.

(* ================================================================== *)
(** * A capture that is cut off *)

(** X9. On a stream without errors that ends before the next record is
    complete (inside the 16-byte record header or inside the SnapLen
    bytes of the payload) [Next] returns nil, stores [io.EOF], the same
    error as at a clean end, and leaves the stream at its end. When the
    record header was complete, the buffer taken for the payload is not
    put back in the pool. *)
Theorem Next_on_truncated_record (r : Reader) :
  Reader_wf r -> clean (buf r) ->
  (length (stream_bytes (buf r)) < 16 + Z.to_nat (SnapLen (Header r)))%nat ->
  fst (Next r) = None /\ err (snd (Next r)) = Some io_EOF /\
  buf (snd (Next r)) = [] /\
  ((16 <= length (stream_bytes (buf r)))%nat ->
   DataPool (snd (Next r)) = tl (DataPool r)).
Proof.
  intros Hwf Hc Hlen. pose proof Hwf as (_ & _ & H16 & Hpool).
  rewrite Next_unfold.
  destruct (Nat.lt_ge_cases (length (stream_bytes (buf r))) 16) as [Hs|Hs].
  - destruct (read_clean_short (sixteenBytes r) r Hc) as (d & Hrun).
    { rewrite H16. exact Hs. }
    rewrite Hrun. cbn. repeat split; try reflexivity. lia.
  - destruct (read_clean_ok (sixteenBytes r) r Hc) as (s1 & Hrun1 & Hc1 & Hb1).
    { rewrite H16. exact Hs. }
    rewrite Hrun1, H16. cbv zeta.
    match goal with |- context [DataPool_Get ?x] =>
      destruct (DataPool_Get_spec x) as (pd & r3 & HG & Lpd & Hr3 & Hcase) end.
    { exact Hpool. }
    rewrite HG.
    assert (Hbuf3 : buf r3 = s1) by (rewrite Hr3; reflexivity).
    destruct (read_clean_short (Data pd) r3) as (d & Hrun2).
    { rewrite Hbuf3. exact Hc1. }
    { rewrite Hbuf3, Hb1, length_skipn, Lpd. cbn [Header set_err set_sixteenBytes set_buf].
      lia. }
    rewrite Hrun2. cbn. repeat split; try reflexivity.
    intros _. rewrite Hr3. cbn.
    destruct Hcase as [(Hp & Hp' & _)|[Hp _]]; cbn in Hp.
    + rewrite Hp, Hp'. reflexivity.
    + rewrite Hp. reflexivity.
Qed.

(** The example file, cut off ten bytes into its record header. *)
Lemma Next_on_truncated_record_example :
  fst (Next truncated_Reader) = None /\
  err (snd (Next truncated_Reader)) = Some io_EOF /\
  buf (snd (Next truncated_Reader)) = [] /\
  ((16 <= length (stream_bytes (buf truncated_Reader)))%nat ->
   DataPool (snd (Next truncated_Reader)) = tl (DataPool truncated_Reader)).
Proof.
  apply (Next_on_truncated_record truncated_Reader).
  - vm_compute. repeat split; repeat constructor.
  - vm_compute. repeat constructor.
  - vm_compute. repeat constructor.
Defined.

(* ================================================================== *)
(** * What every Reader keeps *)

Lemma asUint16_range (d : list byte) (f : bool) : is_uint16 (asUint16 d f).
Proof.
  pose proof (byte_val_range (nth 0 d x00)).
  pose proof (byte_val_range (nth 1 d x00)).
  unfold is_uint16. change (2 ^ 16) with 65536.
  destruct f; unfold asUint16, binary.BigEndian_Uint16,
    binary.LittleEndian_Uint16, binary.at_;
    rewrite lor_shiftl_add by lia; change (2 ^ 8) with 256; lia.
Qed.

Lemma int32_range (x : Z) : is_int32 (int32 x).
Proof.
  unfold is_int32, int32. change (2 ^ 31) with 2147483648.
  change (2 ^ 32) with 4294967296.
  pose proof (Z.mod_pos_bound (x + 2147483648) 4294967296 ltac:(lia)). lia.
Qed.

Lemma zero_ranges : is_uint32 0 /\ is_uint16 0 /\ is_int32 0.
Proof. repeat split; cbv; congruence. Qed.

Lemma readUint32_range (r : Reader) : is_uint32 (fst (readUint32 r)).
Proof.
  unfold readUint32, bind, get, modify, ret.
  destruct (read (fourBytes r) r) as [[d e] r1].
  destruct e; cbn; [apply zero_ranges|apply asUint32_range].
Qed.

Lemma readInt32_range (r : Reader) : is_int32 (fst (readInt32 r)).
Proof.
  unfold readInt32, bind, get, modify, ret.
  destruct (read (fourBytes r) r) as [[d e] r1].
  destruct e; cbn; [apply zero_ranges|apply int32_range].
Qed.

Lemma readUint16_range (r : Reader) : is_uint16 (fst (readUint16 r)).
Proof.
  unfold readUint16, bind, get, modify, ret.
  destruct (read (twoBytes r) r) as [[d e] r1].
  destruct e; cbn; [apply zero_ranges|apply asUint16_range].
Qed.

(** The header that [NewReader] stores holds values of its fields'
    types, and the constant magic value. *)
Lemma NewReader_header_wf (s : stream) (r : Reader) (e : option error) :
  NewReader s = (Some r, e) ->
  FileHeader_wf (Header r) /\ MagicNumber (Header r) = 0xa1b23c4d.
Proof.
  unfold NewReader.
  set (r0 := mkReader false s None (make 4) (make 2) (make 16) []
                      (mkFileHeader 0 0 0 0 0 0 0) 0).
  destruct (readUint32 r0) as [m r1].
  assert (Hbody : forall f r',
    Some (snd ((versionMajor <- readUint16 ;;
                versionMinor <- readUint16 ;;
                timeZone <- readInt32 ;;
                sigFigs <- readUint32 ;;
                snapLen <- readUint32 ;;
                linkType <- readUint32 ;;
                modify (set_Header (mkFileHeader 0xa1b23c4d versionMajor
                          versionMinor timeZone sigFigs snapLen linkType)) ;;;
                modify (set_DataPool [])) (set_flip f r1))) = Some r' ->
    FileHeader_wf (Header r') /\ MagicNumber (Header r') = 0xa1b23c4d).
  { intros f r'. unfold bind.
    generalize (set_flip f r1). intros ra.
    pose proof (readUint16_range ra) as R1.
    destruct (readUint16 ra) as [v1 rb]. cbn [fst] in R1.
    pose proof (readUint16_range rb) as R2.
    destruct (readUint16 rb) as [v2 rc]. cbn [fst] in R2.
    pose proof (readInt32_range rc) as R3.
    destruct (readInt32 rc) as [v3 rd]. cbn [fst] in R3.
    pose proof (readUint32_range rd) as R4.
    destruct (readUint32 rd) as [v4 re]. cbn [fst] in R4.
    pose proof (readUint32_range re) as R5.
    destruct (readUint32 re) as [v5 rf]. cbn [fst] in R5.
    pose proof (readUint32_range rf) as R6.
    destruct (readUint32 rf) as [v6 rg]. cbn [fst] in R6.
    intros H. inversion H; subst r'. clear H.
    split; [|reflexivity].
    unfold FileHeader_wf. cbn [Header set_DataPool set_Header MagicNumber
      VersionMajor VersionMinor TimeZone SigFigs SnapLen LinkType snd].
    split; [cbv; split; congruence|]. auto 10. }
  destruct ((m =? 0xa1b2c3d4) || (m =? 0xa1b23c4d)).
  - intros H. inversion H as [[Hr He]]. eapply Hbody. rewrite Hr. reflexivity.
  - destruct ((m =? 0xd4c3b2a1) || (m =? 0x4d3cb2a1)); [|discriminate].
    intros H. inversion H as [[Hr He]]. eapply Hbody. rewrite Hr. reflexivity.
Qed.

Lemma Next_flip (r : Reader) : flip (snd (Next r)) = flip r.
Proof.
  rewrite Next_unfold.
  destruct (read (sixteenBytes r) r) as [[d e] r1] eqn:Hrun1.
  destruct (read_length _ _ _ _ _ Hrun1) as [_ Hr1].
  destruct e as [e|]; [rewrite Hr1; reflexivity|].
  cbv zeta.
  match goal with |- context [DataPool_Get ?x] =>
    destruct (DataPool_Get x) as [pd r3] eqn:HG end.
  pose proof (DataPool_Get_frame _ _ _ HG) as Hr3.
  destruct (read (Data pd) r3) as [[data e'] r4] eqn:Hrun2.
  destruct (read_length _ _ _ _ _ Hrun2) as [_ Hr4].
  destruct e'; cbn [snd]; rewrite Hr4, Hr3, Hr1; reflexivity.
Qed.

(** X7. Every Reader that a caller can get to from the one [NewReader]
    returned (by calls of [Next], and by releasing buffers of records
    that [Next] returned) has its scratch buffers of 4, 2 and 16 bytes
    and only SnapLen-byte buffers in its pool, and has the header and
    the byte order that [NewReader] fixed; the header holds values of
    its fields' types and the magic value 0xa1b23c4d. *)
Theorem reachable_invariant (s : stream) (r0 : Reader) (e : option error)
    (r : Reader) :
  NewReader s = (Some r0, e) -> reachable r0 r ->
  Reader_wf r /\ Header r = Header r0 /\ flip r = flip r0 /\
  FileHeader_wf (Header r) /\ MagicNumber (Header r) = 0xa1b23c4d.
Proof.
  intros Hnew Hreach.
  pose proof (NewReader_wf _ _ _ Hnew) as Hwf0.
  destruct (NewReader_header_wf _ _ _ Hnew) as [Hh0 Hm0].
  assert (Hinv : Reader_wf r /\ Header r = Header r0 /\ flip r = flip r0).
  { induction Hreach as [|r _ IH|r q _ IH Hq].
    - auto.
    - destruct IH as (Hwf & Hh & Hf).
      destruct (Next_wf r Hwf) as (Hwf' & Hh' & _).
      rewrite Next_flip. split; [exact Hwf'|]. split; congruence.
    - destruct IH as (Hwf & Hh & Hf).
      destruct (Next_wf r Hwf) as (Hwf' & Hh' & Hq').
      split; [|split].
      + apply DataPool_Put_wf; [exact Hwf'|]. rewrite Hh'. apply Hq', Hq.
      + unfold DataPool_Put, modify. cbn [snd Header set_DataPool]. congruence.
      + unfold DataPool_Put, modify. cbn [snd flip set_DataPool].
        rewrite Next_flip. exact Hf. }
  destruct Hinv as (Hwf & Hh & Hf). rewrite Hh. auto.
Qed.

(** The example Reader after its record was read and released. *)
Lemma reachable_invariant_example :
  Reader_wf (snd (DataPool_Put (pkt_PacketData example_packet)
                               (snd (Next example_Reader)))) /\
  Header (snd (DataPool_Put (pkt_PacketData example_packet)
                            (snd (Next example_Reader))))
    = Header example_Reader /\
  flip (snd (DataPool_Put (pkt_PacketData example_packet)
                          (snd (Next example_Reader))))
    = flip example_Reader /\
  FileHeader_wf (Header (snd (DataPool_Put (pkt_PacketData example_packet)
                                           (snd (Next example_Reader))))) /\
  MagicNumber (Header (snd (DataPool_Put (pkt_PacketData example_packet)
                                         (snd (Next example_Reader)))))
    = 0xa1b23c4d.
Proof.
  apply (reachable_invariant
           (of_bytes (file_bytes (example_header 0xa1b23c4d) [example_packet]))
           example_Reader None).
  - vm_compute. reflexivity.
  - apply reachable_release.
    + apply reachable_new.
    + vm_compute. reflexivity.
Defined.

(* ================================================================== *)
(** * Copying a capture *)

(** A record that [Next] returns is one the Writer accepts for the
    Reader's header. *)
Lemma Next_packet_for (r : Reader) (q : Packet) (r' : Reader) :
  Reader_wf r -> Next r = (Some q, r') -> Packet_for (Header r) q.
Proof.
  intros Hwf Hrun.
  destruct (Next_wf r Hwf) as (_ & _ & Hlen).
  rewrite Hrun in Hlen. specialize (Hlen q eq_refl).
  rewrite Next_unfold in Hrun.
  destruct (read (sixteenBytes r) r) as [[d e] r1].
  destruct e; [discriminate|]. cbv zeta in Hrun.
  match type of Hrun with context [DataPool_Get ?x] =>
    destruct (DataPool_Get x) as [pd r3] end.
  destruct (read (Data pd) r3) as [[data e'] r4].
  destruct e'; [discriminate|]. inversion Hrun; subst q r'. clear Hrun.
  cbn in Hlen. unfold Packet_for. cbn.
  split; [apply asUint32_range|]. split; [apply asUint32_range|].
  split; [apply Unix_nanos; apply asUint32_range|exact Hlen].
Qed.

Lemma Next_n_packets_for (n : nat) :
  forall (r : Reader) (qs : list Packet) (r' : Reader),
    Reader_wf r -> Next_n n r = (map Some qs, r') ->
    Forall (Packet_for (Header r)) qs /\ length qs = n.
Proof.
  induction n as [|n IH]; intros r qs r' Hwf Hrun.
  - cbn in Hrun. inversion Hrun as [[Hq Hr]].
    destruct qs; [split; [constructor|reflexivity]|discriminate].
  - cbn [Next_n] in Hrun. unfold bind at 1 in Hrun.
    destruct (Next r) as [p r1] eqn:HN. unfold bind at 1 in Hrun.
    destruct (Next_n n r1) as [ps r2] eqn:HNn. unfold ret in Hrun.
    inversion Hrun as [[Hq Hr]]. destruct qs as [|q qs]; [discriminate|].
    cbn [map] in Hq. inversion Hq; subst p ps.
    destruct (Next_wf r Hwf) as (Hwf1 & Hh1 & _). rewrite HN in Hwf1, Hh1.
    cbn [snd] in Hwf1, Hh1.
    destruct (IH r1 qs r2 Hwf1 HNn) as [Hfor Hlen].
    rewrite Hh1 in Hfor. split; [|cbn; congruence].
    constructor; [|exact Hfor]. exact (Next_packet_for r q r1 Hwf HN).
Qed.

(** X13. A capture can be copied: the header that [NewReader] stored
    and records that [Next] returned (with timestamps that fit 32-bit
    seconds), written through the Writer to a fresh buffer, read back as
    that same header and those same records, little-endian, whatever the
    byte order and the magic value of the original. *)
Theorem copy_is_stable (s : stream) (r : Reader) (e : option error)
    (n : nat) (qs : list Packet) (r' : Reader) :
  NewReader s = (Some r, e) -> Next_n n r = (map Some qs, r') ->
  Forall fits_seconds qs ->
  exists bs r2 qs2 r2',
    write_file (Header r) qs = Some bs /\
    NewReader (of_bytes bs) = (Some r2, None) /\
    Header r2 = Header r /\ flip r2 = false /\
    Next_n n r2 = (map Some qs2, r2') /\
    map record_tuple qs2 = map record_tuple qs.
Proof.
  intros Hnew Hrun Hfit.
  pose proof (NewReader_wf _ _ _ Hnew) as Hwf.
  destruct (NewReader_header_wf _ _ _ Hnew) as [Hh Hm].
  destruct (Next_n_packets_for n r qs r' Hwf Hrun) as [Hfor Hlen].
  pose proof Hh as (Hmag & Hmaj & Hmin & Htz & Hsig & Hsnap & Hlink).
  exists (header_bytes (Header r) ++ flat_map record_bytes qs).
  destruct (clean_of_bytes (header_bytes (Header r) ++ flat_map record_bytes qs))
    as [Hc Hb].
  unfold header_bytes in Hb at 2. rewrite <- !app_assoc in Hb.
  destruct (NewReader_clean _ (MagicNumber (Header r)) false
              _ _ _ _ _ _ _ _ Hc Hb)
    as (r2 & Hrun2 & Hf2 & Hh2 & _ & Hc2 & Hb2 & Hwf2 & _); try reflexivity.
  { apply Uint32_le32_exact, Hmag. }
  { left. split; [right; exact Hm|reflexivity]. }
  assert (Hsame : Header r2 = Header r).
  { rewrite Hh2. unfold asUint16, asUint32.
    rewrite !Uint32_le32_exact, !Uint16_le16_exact, int32_uint32
      by (try apply uint32_range; assumption).
    rewrite <- Hm. destruct (Header r). reflexivity. }
  rewrite <- (app_nil_r (flat_map record_bytes qs)) in Hb2.
  destruct (Next_n_written qs r2 [] Hwf2 Hc2 Hf2 Hb2)
    as (qs2 & r2' & Hrun2' & Htup & _); [|exact Hfit|].
  { rewrite Hsame. exact Hfor. }
  rewrite Hlen in Hrun2'.
  exists r2, qs2, r2'. split; [apply write_file_bytes|]. auto 10.
Qed.

(** The big-endian example capture, copied. *)
Lemma copy_is_stable_example :
  exists bs r2 qs2 r2',
    write_file (Header (fst (NewReader_be_example))) [example_packet] = Some bs /\
    NewReader (of_bytes bs) = (Some r2, None) /\
    Header r2 = Header (fst NewReader_be_example) /\ flip r2 = false /\
    Next_n 1 r2 = (map Some qs2, r2') /\
    map record_tuple qs2 = map record_tuple [example_packet].
Proof.
  apply (copy_is_stable (of_bytes big_endian_file) (fst NewReader_be_example)
           None 1 [example_packet] (snd NewReader_be_example)).
  - vm_compute. reflexivity.
  - vm_compute. reflexivity.
  - repeat constructor; cbv; congruence.
Defined.

(* ================================================================== *)
(** * How many buffers a capture costs *)

Lemma tuple_determines (q p : Packet) :
  record_tuple q = wrapped_tuple p ->
  pkt_PacketData q = mkPacketData (pkt_Data p) -> q = read_back p.
Proof.
  destruct q as [t c l d pd]. unfold record_tuple, wrapped_tuple, read_back.
  cbn. intros H1 H2. inversion H1. subst. reflexivity.
Qed.

Lemma int64_small (x : Z) : - 2 ^ 63 <= x < 2 ^ 63 -> int64 x = x.
Proof.
  unfold int64. change (2 ^ 63) with 9223372036854775808.
  change (2 ^ 64) with 18446744073709551616. intros H.
  rewrite Z.mod_small; lia.
Qed.

(** Without releases every record costs a fresh buffer. *)
Lemma Next_n_count (pkts : list Packet) :
  forall (r : Reader) (rest : list byte),
    Reader_wf r -> clean (buf r) -> DataPool r = [] ->
    0 <= Count r -> Count r + Z.of_nat (length pkts) < 2 ^ 63 ->
    stream_bytes (buf r) = flat_map (record_layout (flip r)) pkts ++ rest ->
    Forall (Packet_for (Header r)) pkts ->
    exists r',
      Next_n (length pkts) r = (map Some (map read_back pkts), r') /\
      Count r' = Count r + Z.of_nat (length pkts).
Proof.
  induction pkts as [|p pkts IH]; intros r rest Hwf Hc Hpool H0 Hmax Hb Hfor.
  - exists r. cbn. split; [reflexivity|lia].
  - inversion Hfor as [|? ? Hp Hfor']; subst.
    cbn [flat_map] in Hb. rewrite <- app_assoc in Hb.
    destruct (Next_layout r p _ Hwf Hc Hb Hp)
      as (q & r1 & Hrun & Htup & Hpd & Hwf1 & Hc1 & Hf1 & Hh1 & Hb1 & Hcase).
    destruct Hcase as [(_ & Hpool1 & Hcnt)|[[pd Hcontra] _]];
      [|rewrite Hpool in Hcontra; discriminate].
    cbn [length] in Hmax. rewrite Nat2Z.inj_succ in Hmax.
    rewrite int64_small in Hcnt by lia.
    rewrite <- Hh1 in Hfor'. rewrite <- Hf1 in Hb1.
    destruct (IH r1 rest Hwf1 Hc1 Hpool1) as (r' & Hrun' & Hcnt');
      try assumption; try lia.
    exists r'. cbn [length Next_n]. unfold bind at 1. rewrite Hrun.
    unfold bind at 1. rewrite Hrun'. unfold ret.
    rewrite (tuple_determines q p Htup Hpd). cbn [map].
    split; [reflexivity|]. rewrite Nat2Z.inj_succ. lia.
Qed.

(** With a buffer in the pool, reading and releasing costs none. *)
Lemma Next_release_n_steady (pkts : list Packet) :
  forall (r : Reader) (rest : list byte) (pd0 : PacketData),
    Reader_wf r -> clean (buf r) -> DataPool r = [pd0] ->
    stream_bytes (buf r) = flat_map (record_layout (flip r)) pkts ++ rest ->
    Forall (Packet_for (Header r)) pkts ->
    exists r',
      Next_release_n (length pkts) r = (map Some (map read_back pkts), r') /\
      Count r' = Count r /\ length (DataPool r') = 1%nat.
Proof.
  induction pkts as [|p pkts IH]; intros r rest pd0 Hwf Hc Hpool Hb Hfor.
  - exists r. cbn. rewrite Hpool. auto.
  - inversion Hfor as [|? ? Hp Hfor']; subst.
    cbn [flat_map] in Hb. rewrite <- app_assoc in Hb.
    destruct (Next_layout r p _ Hwf Hc Hb Hp)
      as (q & r1 & Hrun & Htup & Hpd & Hwf1 & Hc1 & Hf1 & Hh1 & Hb1 & Hcase).
    destruct Hcase as [(Hcontra & _)|[[pd Hpool1] Hcnt]];
      [rewrite Hpool in Hcontra; discriminate|].
    rewrite Hpool in Hpool1. inversion Hpool1 as [[Hpd0 Hnil]].
    pose proof (tuple_determines q p Htup Hpd) as Hq. subst q.
    assert (Hwf2 : Reader_wf (snd (DataPool_Put (mkPacketData (pkt_Data p)) r1))).
    { apply DataPool_Put_wf; [exact Hwf1|]. rewrite Hh1. apply Hp. }
    destruct (IH (snd (DataPool_Put (mkPacketData (pkt_Data p)) r1)) rest
                 (mkPacketData (pkt_Data p)) Hwf2)
      as (r' & Hrun' & Hcnt' & Hlen').
    { exact Hc1. }
    { unfold DataPool_Put, modify. cbn [snd DataPool set_DataPool].
      rewrite <- Hnil. reflexivity. }
    { unfold DataPool_Put, modify. cbn [snd buf flip set_DataPool].
      rewrite Hf1. exact Hb1. }
    { unfold DataPool_Put, modify. cbn [snd Header set_DataPool].
      rewrite Hh1. exact Hfor'. }
    exists r'. cbn [length Next_release_n]. unfold bind at 1.
    unfold Next_release. unfold bind at 1. rewrite Hrun.
    cbn [pkt_PacketData read_back]. unfold bind at 1.
    change (DataPool_Put {| Data := pkt_Data p |} r1)
      with (tt, snd (DataPool_Put {| Data := pkt_Data p |} r1)).
    unfold ret at 1. unfold bind at 1. rewrite Hrun'. unfold ret.
    cbn [map]. split; [reflexivity|]. split; [|exact Hlen'].
    rewrite Hcnt'. unfold DataPool_Put, modify. cbn [snd Count set_DataPool].
    exact Hcnt.
Qed.



(* ================================================================== *)
(** * The Reader does not see how the stream splits its bytes *)

Lemma chunk_blind_ret {A : Type} (a : A) : chunk_blind (ret a).
Proof.
  intros r s1 s2 H1 H2 Hb. exists a, r, s1, s2. unfold ret. auto.
Qed.

Lemma chunk_blind_bind {A B : Type} (m : M A) (f : A -> M B) :
  chunk_blind m -> (forall a, chunk_blind (f a)) -> chunk_blind (bind m f).
Proof.
  intros Hm Hf r s1 s2 H1 H2 Hb.
  destruct (Hm r s1 s2 H1 H2 Hb) as (a & r' & s1' & s2' & E1 & E2 & C1 & C2 & Hb').
  destruct (Hf a r' s1' s2' C1 C2 Hb')
    as (b & r'' & s1'' & s2'' & F1 & F2 & D1 & D2 & Hb'').
  exists b, r'', s1'', s2''. unfold bind. rewrite E1, E2, F1, F2. auto.
Qed.

Lemma chunk_blind_get {A : Type} (field : Reader -> A) :
  (forall s r, field (set_buf s r) = field r) -> chunk_blind (get field).
Proof.
  intros Hfield r s1 s2 H1 H2 Hb. exists (field r), r, s1, s2.
  unfold get. rewrite !Hfield. auto.
Qed.

Lemma chunk_blind_modify (f : Reader -> Reader) :
  (forall s r, f (set_buf s r) = set_buf s (f r)) -> chunk_blind (modify f).
Proof.
  intros Hf r s1 s2 H1 H2 Hb. exists tt, (f r), s1, s2.
  unfold modify. rewrite !Hf. auto.
Qed.

Lemma chunk_blind_read (data : list byte) : chunk_blind (read data).
Proof.
  intros r s1 s2 H1 H2 Hb.
  destruct (Nat.le_gt_cases (length data) (length (stream_bytes s1))) as [Hl|Hl].
  - destruct (read_clean_ok data (set_buf s1 r) H1 Hl) as (s1' & E1 & C1 & B1).
    assert (Hl2 : (length data <= length (stream_bytes (buf (set_buf s2 r))))%nat)
      by (cbn [buf set_buf]; rewrite <- Hb; exact Hl).
    destruct (read_clean_ok data (set_buf s2 r) H2 Hl2) as (s2' & E2 & C2 & B2).
    cbn [buf set_buf] in *.
    exists (firstn (length data) (stream_bytes s1), None), r, s1', s2'.
    split; [exact E1|]. split; [rewrite Hb; exact E2|].
    split; [exact C1|]. split; [exact C2|]. rewrite B1, B2, Hb. reflexivity.
  - assert (Hfail : forall s, clean s -> stream_bytes s = stream_bytes s1 ->
      read data (set_buf s r)
      = ((stream_bytes s1 ++ skipn (length (stream_bytes s1)) data, Some io_EOF),
         set_buf [] r)).
    { intros s Hc Hs.
      destruct (read_spec data (set_buf s r))
        as (c & e & s' & Hrun & Hbytes & Hle & Hok & Hcl).
      cbn [buf set_buf] in *. destruct (Hcl Hc) as [_ [He|[He Hs']]].
      - apply Hok in He. rewrite Hs in Hbytes. rewrite Hbytes, length_app in Hl.
        lia.
      - subst s' e. cbn in Hbytes. rewrite app_nil_r in Hbytes.
        rewrite Hs in Hbytes. subst c. exact Hrun. }
    eexists _, r, [], []. split; [apply Hfail; [exact H1|reflexivity]|].
    split; [apply Hfail; [exact H2|symmetry; exact Hb]|].
    repeat split; constructor.
Qed.

Ltac blind :=
  repeat first
    [ apply chunk_blind_bind; [|intros ?]
    | apply chunk_blind_ret
    | apply chunk_blind_read
    | apply chunk_blind_get; intros ? ?; reflexivity
    | apply chunk_blind_modify; intros ? ?; reflexivity ].

Lemma chunk_blind_readUint32 : chunk_blind readUint32.
Proof.
  unfold readUint32. blind.
  match goal with |- context [is_nil ?e] => destruct (is_nil e) end; blind.
Qed.

Lemma chunk_blind_readInt32 : chunk_blind readInt32.
Proof.
  unfold readInt32. blind.
  match goal with |- context [is_nil ?e] => destruct (is_nil e) end; blind.
Qed.

Lemma chunk_blind_readUint16 : chunk_blind readUint16.
Proof.
  unfold readUint16. blind.
  match goal with |- context [is_nil ?e] => destruct (is_nil e) end; blind.
Qed.

Lemma chunk_blind_DataPool_Get : chunk_blind DataPool_Get.
Proof.
  unfold DataPool_Get, DataPool_New. blind.
  match goal with |- chunk_blind (match ?p with _ => _ end) => destruct p end;
    blind.
Qed.

Ltac blind_Next :=
  repeat first
    [ apply chunk_blind_DataPool_Get
    | apply chunk_blind_bind; [|intros ?]
    | apply chunk_blind_ret
    | apply chunk_blind_read
    | apply chunk_blind_get; intros ? ?; reflexivity
    | apply chunk_blind_modify; intros ? ?; reflexivity
    | match goal with
      | |- chunk_blind (if is_nil ?e then _ else _) => destruct (is_nil e)
      end ].

Lemma chunk_blind_Next : chunk_blind Next.
Proof. unfold Next. blind_Next. Qed.

Lemma chunk_blind_Next_n (n : nat) : chunk_blind (Next_n n).
Proof.
  induction n as [|n IH]; cbn [Next_n]; [apply chunk_blind_ret|].
  apply chunk_blind_bind; [apply chunk_blind_Next|intros p].
  apply chunk_blind_bind; [exact IH|intros ps]. apply chunk_blind_ret.
Qed.

Lemma chunk_blind_header :
  chunk_blind
    (versionMajor <- readUint16 ;;
     versionMinor <- readUint16 ;;
     timeZone <- readInt32 ;;
     sigFigs <- readUint32 ;;
     snapLen <- readUint32 ;;
     linkType <- readUint32 ;;
     modify (set_Header (mkFileHeader 0xa1b23c4d versionMajor versionMinor
                                      timeZone sigFigs snapLen linkType)) ;;;
     modify (set_DataPool [])).
Proof.
  repeat first
    [ apply chunk_blind_readUint16 | apply chunk_blind_readUint32
    | apply chunk_blind_readInt32
    | apply chunk_blind_modify; intros ? ?; reflexivity
    | apply chunk_blind_bind; [|intros ?] ].
Qed.

(** X3. On error-free streams the result of parsing depends on the
    bytes only, not on how the stream splits them into reads: two
    streams with the same bytes make [NewReader] fail with the same
    error or return Readers that agree in every field but the stream,
    and any number of calls of [Next] then returns the same records and
    again leaves Readers that agree in every field but the stream. *)
Theorem chunking_is_invisible (s1 s2 : stream) (n : nat) :
  clean s1 -> clean s2 -> stream_bytes s1 = stream_bytes s2 ->
  (fst (NewReader s1) = None /\ NewReader s1 = NewReader s2) \/
  exists r1 r2,
    NewReader s1 = (Some r1, None) /\ NewReader s2 = (Some r2, None) /\
    set_buf [] r1 = set_buf [] r2 /\
    fst (Next_n n r1) = fst (Next_n n r2) /\
    set_buf [] (snd (Next_n n r1)) = set_buf [] (snd (Next_n n r2)).
Proof.
  intros H1 H2 Hb. unfold NewReader.
  set (r00 := mkReader false [] None (make 4) (make 2) (make 16) []
                       (mkFileHeader 0 0 0 0 0 0 0) 0).
  change (mkReader false s1 None (make 4) (make 2) (make 16) []
                   (mkFileHeader 0 0 0 0 0 0 0) 0) with (set_buf s1 r00).
  change (mkReader false s2 None (make 4) (make 2) (make 16) []
                   (mkFileHeader 0 0 0 0 0 0 0) 0) with (set_buf s2 r00).
  destruct (chunk_blind_readUint32 r00 s1 s2 H1 H2 Hb)
    as (m & ra & sa1 & sa2 & E1 & E2 & C1 & C2 & Hba).
  rewrite E1, E2.
  assert (Hbody : forall f,
    exists r1 r2,
      snd ((versionMajor <- readUint16 ;;
            versionMinor <- readUint16 ;;
            timeZone <- readInt32 ;;
            sigFigs <- readUint32 ;;
            snapLen <- readUint32 ;;
            linkType <- readUint32 ;;
            modify (set_Header (mkFileHeader 0xa1b23c4d versionMajor
                      versionMinor timeZone sigFigs snapLen linkType)) ;;;
            modify (set_DataPool [])) (set_flip f (set_buf sa1 ra))) = r1 /\
      snd ((versionMajor <- readUint16 ;;
            versionMinor <- readUint16 ;;
            timeZone <- readInt32 ;;
            sigFigs <- readUint32 ;;
            snapLen <- readUint32 ;;
            linkType <- readUint32 ;;
            modify (set_Header (mkFileHeader 0xa1b23c4d versionMajor
                      versionMinor timeZone sigFigs snapLen linkType)) ;;;
            modify (set_DataPool [])) (set_flip f (set_buf sa2 ra))) = r2 /\
      set_buf [] r1 = set_buf [] r2 /\
      fst (Next_n n r1) = fst (Next_n n r2) /\
      set_buf [] (snd (Next_n n r1)) = set_buf [] (snd (Next_n n r2))).
  { intros f.
    change (set_flip f (set_buf sa1 ra)) with (set_buf sa1 (set_flip f ra)).
    change (set_flip f (set_buf sa2 ra)) with (set_buf sa2 (set_flip f ra)).
    destruct (chunk_blind_header (set_flip f ra) sa1 sa2 C1 C2 Hba)
      as (u & rb & sb1 & sb2 & F1 & F2 & D1 & D2 & Hbb).
    rewrite F1, F2. cbn [snd].
    destruct (chunk_blind_Next_n n rb sb1 sb2 D1 D2 Hbb)
      as (ps & rc & sc1 & sc2 & G1 & G2 & _).
    eexists _, _. split; [reflexivity|]. split; [reflexivity|].
    rewrite G1, G2. cbn [fst snd]. repeat split; reflexivity. }
  destruct ((m =? 0xa1b2c3d4) || (m =? 0xa1b23c4d)).
  - right. destruct (Hbody false) as (r1 & r2 & <- & <- & Hrest).
    eexists _, _. split; [reflexivity|]. split; [reflexivity|]. exact Hrest.
  - destruct ((m =? 0xd4c3b2a1) || (m =? 0x4d3cb2a1)).
    + right. destruct (Hbody true) as (r1 & r2 & <- & <- & Hrest).
      eexists _, _. split; [reflexivity|]. split; [reflexivity|]. exact Hrest.
    + left. split; reflexivity.
Qed.

(** The example file in one piece and one byte per read. *)
Lemma chunking_is_invisible_example :
  (fst (NewReader (of_bytes (file_bytes (example_header 0xa1b23c4d)
                                        [example_packet]))) = None /\
   NewReader (of_bytes (file_bytes (example_header 0xa1b23c4d) [example_packet]))
   = NewReader (trickle (file_bytes (example_header 0xa1b23c4d) [example_packet])))
  \/
  exists r1 r2,
    NewReader (of_bytes (file_bytes (example_header 0xa1b23c4d) [example_packet]))
      = (Some r1, None) /\
    NewReader (trickle (file_bytes (example_header 0xa1b23c4d) [example_packet]))
      = (Some r2, None) /\
    set_buf [] r1 = set_buf [] r2 /\
    fst (Next_n 2 r1) = fst (Next_n 2 r2) /\
    set_buf [] (snd (Next_n 2 r1)) = set_buf [] (snd (Next_n 2 r2)).
Proof.
  apply (chunking_is_invisible
           (of_bytes (file_bytes (example_header 0xa1b23c4d) [example_packet]))
           (trickle (file_bytes (example_header 0xa1b23c4d) [example_packet]))
           2).
  - repeat constructor.
  - vm_compute. repeat constructor.
  - vm_compute. reflexivity.
Defined.
